(** * Load generator configuration: rate flag, header flag and flag/environment layering

    A shallow embedding of [internal/loadgen/config/config.go] (package
    [loadgencfg]).  Go strings are byte strings and are modelled by [string]
    (one [ascii] per byte); Go's [int], [int64] and [uint64] are modelled by
    [Z] with the wrap-around written out (a 64-bit platform is assumed, so
    [int] is [int64]); functions that return [(value, error)] return a pair
    whose second component is [None] for a nil error; methods that mutate
    their receiver take the old value and return the new one.

    The Go standard library functions the package calls ([strings.Cut],
    [strconv.Atoi], [strconv.ParseBool], [time.ParseDuration],
    [time.Duration.String], the [%d] verb of [fmt], [flag.Set]) are embedded
    from their Go sources under the names [strings_Cut], [strconv_Atoi], ...
    The [float64] arithmetic of [time.ParseDuration] is IEEE 754 binary64
    arithmetic on [spec_float]; its loop takes the length of the input as
    fuel, which is enough ([ParseDuration_fuel]).  [net/url.Parse] is kept
    abstract, as a class [NetURL]. *)

From Stdlib Require Import ZArith Lia Ascii String List SpecFloat.
From stdpp Require Import base strings gmap.

Local Open Scope Z_scope.

(** ** Bytes and strings *)

Definition byte_of (c : ascii) : Z := Z.of_N (N_of_ascii c).

(** ['0' <= c && c <= '9'] *)
Definition is_digit (c : ascii) : bool := (48 <=? byte_of c) && (byte_of c <=? 57).

(** [len(s)] *)
Definition len (s : string) : Z := Z.of_nat (String.length s).

(** [s[:i]] and [s[i:]] *)
Fixpoint str_take (i : nat) (s : string) : string :=
  match i, s with
  | S j, String c r => String c (str_take j r)
  | _, _ => EmptyString
  end.

Fixpoint str_drop (i : nat) (s : string) : string :=
  match i, s with
  | S j, String _ r => str_drop j r
  | _, _ => s
  end.

(** [strings.Index]: the index of the first instance of [sep] in [s]
    ([None] for Go's -1). *)
Fixpoint strings_Index (s sep : string) : option nat :=
  if String.prefix sep s then Some 0%nat
  else match s with
       | EmptyString => None
       | String _ r => S <$> strings_Index r sep
       end.

(** [strings.Cut]: slices [s] around the first instance of [sep]. *)
Definition strings_Cut (s sep : string) : string * string * bool :=
  match strings_Index s sep with
  | Some i => (str_take i s, str_drop (i + String.length sep) s, true)
  | None => (s, EmptyString, false)
  end.

(** [strings.Replace(s, old, new, -1)] for a one-byte [old] and [new]. *)
Fixpoint strings_Replace (s : string) (old new : ascii) : string :=
  match s with
  | EmptyString => EmptyString
  | String c r => String (if Ascii.eqb c old then new else c) (strings_Replace r old new)
  end.

(** ** Machine integers *)

Definition wrap_uint64 (z : Z) : Z := z mod 2 ^ 64.
Definition wrap_int64 (z : Z) : Z := (z + 2 ^ 63) mod 2 ^ 64 - 2 ^ 63.
Definition wrap_byte (z : Z) : Z := z mod 256.

Definition maxUint64 : Z := 2 ^ 64 - 1.
Definition maxInt64 : Z := 2 ^ 63 - 1.
Definition minInt64 : Z := - 2 ^ 63.

(** ** strconv *)

Inductive NumError := ErrSyntax | ErrRange.

(** The digit loop of [strconv.ParseUint(s, 10, 0)]: in base 10 every byte
    outside ['0'..'9'] is a syntax error; [cutoff = maxUint64/10 + 1] and
    [maxVal = 1<<64 - 1]. *)
Fixpoint ParseUint_loop (s : string) (n : Z) : Z * option NumError :=
  match s with
  | EmptyString => (n, None)
  | String c r =>
      if is_digit c then
        let d := byte_of c - 48 in
        if n >=? maxUint64 / 10 + 1 then (maxUint64, Some ErrRange)
        else
          let n' := wrap_uint64 (n * 10) in
          let n1 := wrap_uint64 (n' + d) in
          if (n1 <? n') || (n1 >? maxUint64) then (maxUint64, Some ErrRange)
          else ParseUint_loop r n1
      else (0, Some ErrSyntax)
  end.

Definition strconv_ParseUint (s : string) : Z * option NumError :=
  match s with
  | EmptyString => (0, Some ErrSyntax)
  | _ => ParseUint_loop s 0
  end.

(** [strconv.ParseInt(s, 10, 0)] *)
Definition strconv_ParseInt (s : string) : Z * option NumError :=
  match s with
  | EmptyString => (0, Some ErrSyntax)
  | String c r =>
      let neg := Ascii.eqb c "-" in
      let s' := if Ascii.eqb c "+" || neg then r else s in
      match strconv_ParseUint s' with
      | (_, Some ErrSyntax) => (0, Some ErrSyntax)
      | (un, _) =>
          let cutoff := 2 ^ 63 in
          if negb neg && (un >=? cutoff) then (cutoff - 1, Some ErrRange)
          else if neg && (un >? cutoff) then (- cutoff, Some ErrRange)
          else
            let n := wrap_int64 un in
            (if neg then wrap_int64 (- n) else n, None)
      end
  end.

(** The fast path of [strconv.Atoi]: [ch -= '0'; if ch > 9 { syntax error };
    n = n*10 + int(ch)]. *)
Fixpoint Atoi_loop (s : string) (n : Z) : option Z :=
  match s with
  | EmptyString => Some n
  | String c r =>
      let ch := wrap_byte (byte_of c - 48) in
      if ch >? 9 then None
      else Atoi_loop r (wrap_int64 (n * 10 + ch))
  end.

(** [strconv.Atoi] *)
Definition strconv_Atoi (s : string) : Z * option NumError :=
  if (0 <? len s) && (len s <? 19) then
    match s with
    | EmptyString => (0, Some ErrSyntax)
    | String c r =>
        let signed := Ascii.eqb c "-" || Ascii.eqb c "+" in
        let s' := if signed then r else s in
        if signed && (len s' <? 1) then (0, Some ErrSyntax)
        else
          match Atoi_loop s' 0 with
          | None => (0, Some ErrSyntax)
          | Some n => (if Ascii.eqb c "-" then wrap_int64 (- n) else n, None)
          end
    end
  else strconv_ParseInt s.

(** [strconv.ParseBool] *)
Definition strconv_ParseBool (str : string) : bool * option NumError :=
  if decide (str = "1" \/ str = "t" \/ str = "T" \/ str = "TRUE" \/ str = "true" \/ str = "True")
  then (true, None)
  else if decide (str = "0" \/ str = "f" \/ str = "F" \/ str = "FALSE" \/ str = "false" \/ str = "False")
  then (false, None)
  else (false, Some ErrSyntax).

(** The [%d] verb of [fmt] on an [int] ([fmt.fmtInteger], base 10, no flags):
    digits are produced from the least significant one, [for u >= 10], then
    the last digit, then the sign.  A [uint64] has at most 20 digits. *)
Definition digit_char (d : Z) : ascii := ascii_of_N (Z.to_N (48 + d)).

Fixpoint fmtInteger_loop (fuel : nat) (u : Z) (buf : string) : string :=
  match fuel with
  | O => buf
  | S k =>
      if u >=? 10 then
        let next := u / 10 in
        fmtInteger_loop k next (String (digit_char (u - next * 10)) buf)
      else String (digit_char u) buf
  end.

Definition fmt_d (a : Z) : string :=
  let u := wrap_uint64 a in
  let negative := wrap_int64 u <? 0 in
  let u := if negative then wrap_uint64 (- u) else u in
  let buf := fmtInteger_loop 20 u EmptyString in
  if negative then String "-" buf else buf.

(** ** float64

    [time.ParseDuration] computes the fractional part of a component in
    [float64].  IEEE 754 binary64 values are modelled by [spec_float] with
    53 bits of precision and round-to-nearest-even. *)

Definition float64 := spec_float.
Definition float64_of_uint64 (u : Z) : float64 := binary_normalize 53 1024 u 0 false.
Definition float64_mul : float64 -> float64 -> float64 := SFmul 53 1024.
Definition float64_div : float64 -> float64 -> float64 := SFdiv 53 1024.

(** [uint64(x)] truncates towards zero.  Go leaves the conversion of a
    negative, infinite or NaN value to the implementation; [ParseDuration]
    only converts values between 0 and one hour of nanoseconds. *)
Definition uint64_of_float64 (x : float64) : Z :=
  match x with
  | S754_finite false m e =>
      wrap_uint64 (if 0 <=? e then Z.shiftl (Zpos m) e else Z.shiftr (Zpos m) (- e))
  | _ => 0
  end.

(** ** time *)

Definition Nanosecond : Z := 1.
Definition Microsecond : Z := 1000 * Nanosecond.
Definition Millisecond : Z := 1000 * Microsecond.
Definition Second : Z := 1000 * Millisecond.
Definition Minute : Z := 60 * Second.
Definition Hour : Z := 60 * Minute.

(** The micro sign U+00B5 and the Greek letter mu U+03BC, in UTF-8. *)
Definition micro_sign : string :=
  String (ascii_of_nat 194) (String (ascii_of_nat 181) EmptyString).
Definition greek_mu : string :=
  String (ascii_of_nat 206) (String (ascii_of_nat 188) EmptyString).

Definition unitList : list (string * Z) :=
  [ ("ns", Nanosecond); ("us", Microsecond);
    (micro_sign +:+ "s", Microsecond); (greek_mu +:+ "s", Microsecond);
    ("ms", Millisecond); ("s", Second); ("m", Minute); ("h", Hour) ].

Definition unitMap : gmap string Z := list_to_map unitList.

Inductive DurationError :=
| ErrInvalidDuration (orig : string)
| ErrMissingUnit (orig : string)
| ErrUnknownUnit (u orig : string).

(** [leadingInt] consumes the leading [[0-9]*] of [s]; [None] is
    [errLeadingInt] (overflow). *)
Fixpoint leadingInt_loop (s : string) (x : Z) : option (Z * string) :=
  match s with
  | EmptyString => Some (x, s)
  | String c r =>
      if (byte_of c <? 48) || (byte_of c >? 57) then Some (x, s)
      else if x >? 2 ^ 63 / 10 then None
      else
        let x' := wrap_uint64 (x * 10 + byte_of c - 48) in
        if x' >? 2 ^ 63 then None else leadingInt_loop r x'
  end.

Definition leadingInt (s : string) : option (Z * string) := leadingInt_loop s 0.

(** [leadingFraction] consumes the leading [[0-9]*] of [s], ignoring the
    digits that no longer fit; [scale] is multiplied by 10 for each digit
    kept. *)
Fixpoint leadingFraction_loop (s : string) (x : Z) (scale : float64) (overflow : bool)
  : Z * float64 * string :=
  match s with
  | EmptyString => (x, scale, s)
  | String c r =>
      if (byte_of c <? 48) || (byte_of c >? 57) then (x, scale, s)
      else if overflow then leadingFraction_loop r x scale overflow
      else if x >? (2 ^ 63 - 1) / 10 then leadingFraction_loop r x scale true
      else
        let y := wrap_uint64 (x * 10 + byte_of c - 48) in
        if y >? 2 ^ 63 then leadingFraction_loop r x scale true
        else leadingFraction_loop r y (float64_mul scale (float64_of_uint64 10)) overflow
  end.

Definition leadingFraction (s : string) : Z * float64 * string :=
  leadingFraction_loop s 0 (float64_of_uint64 1) false.

(** The length of the unit: the bytes up to the next ['.'] or digit. *)
Fixpoint unit_len (s : string) : nat :=
  match s with
  | EmptyString => O
  | String c r => if Ascii.eqb c "." || is_digit c then O else S (unit_len r)
  end.

(** The end of a turn of the loop of [time.ParseDuration], from
    [// Consume unit.]: [v] and [f] are the integers before and after the
    decimal point, [s] is the input after them, [d] the total so far. *)
Definition ParseDuration_unit (orig : string) (v f : Z) (scale : float64) (s : string) (d : Z)
  : (Z * string) + DurationError :=
  let i := unit_len s in
  if Nat.eqb i 0 then inr (ErrMissingUnit orig)
  else
    let u := str_take i s in
    let s := str_drop i s in
    match unitMap !! u with
    | None => inr (ErrUnknownUnit u orig)
    | Some unit =>
        if v >? 2 ^ 63 / unit then inr (ErrInvalidDuration orig)
        else
          let v := wrap_uint64 (v * unit) in
          let v' :=
            if f >? 0 then
              wrap_uint64
                (v + uint64_of_float64
                       (float64_mul (float64_of_uint64 f)
                          (float64_div (float64_of_uint64 unit) scale)))
            else v in
          if (f >? 0) && (v' >? 2 ^ 63) then inr (ErrInvalidDuration orig)
          else
            let d := wrap_uint64 (d + v') in
            if d >? 2 ^ 63 then inr (ErrInvalidDuration orig)
            else inl (d, s)
    end.

(** One turn of the loop [for s != ""] of [time.ParseDuration], on a
    non-empty [s]: the new total [d] and the rest of the input. *)
Definition ParseDuration_step (orig s : string) (d : Z) : (Z * string) + DurationError :=
  match s with
  | EmptyString => inr (ErrInvalidDuration orig)
  | String c _ =>
      if negb (Ascii.eqb c "." || is_digit c) then inr (ErrInvalidDuration orig)
      else
        let pl := len s in
        match leadingInt s with
        | None => inr (ErrInvalidDuration orig)
        | Some (v, s1) =>
            let pre := negb (pl =? len s1) in
            let '(f, scale, s2, post) :=
              match s1 with
              | String "." s1' =>
                  let '(f, scale, s2) := leadingFraction s1' in
                  (f, scale, s2, negb (len s1' =? len s2))
              | _ => (0, float64_of_uint64 1, s1, false)
              end in
            if negb pre && negb post then inr (ErrInvalidDuration orig)
            else ParseDuration_unit orig v f scale s2 d
        end
  end.

(** The loop; every turn consumes at least one byte, so [String.length s]
    turns are enough ([ParseDuration_loop_total]).  [None]: out of fuel. *)
Fixpoint ParseDuration_loop (fuel : nat) (orig s : string) (d : Z)
  : option (Z + DurationError) :=
  match s with
  | EmptyString => Some (inl d)
  | _ =>
      match fuel with
      | O => None
      | S k =>
          match ParseDuration_step orig s d with
          | inr e => Some (inr e)
          | inl (d', s') => ParseDuration_loop k orig s' d'
          end
      end
  end.

(** [time.ParseDuration] *)
Definition time_ParseDuration (orig : string) : Z * option DurationError :=
  let neg := match orig with String "-" _ => true | _ => false end in
  let s := match orig with
           | String c r => if Ascii.eqb c "-" || Ascii.eqb c "+" then r else orig
           | EmptyString => orig
           end in
  if decide (s = "0") then (0, None)
  else if decide (s = "") then (0, Some (ErrInvalidDuration orig))
  else
    match ParseDuration_loop (String.length s) orig s 0 with
    | None | Some (inr (ErrInvalidDuration _)) => (0, Some (ErrInvalidDuration orig))
    | Some (inr e) => (0, Some e)
    | Some (inl d) =>
        if neg then (wrap_int64 (- wrap_int64 d), None)
        else if d >? 2 ^ 63 - 1 then (0, Some (ErrInvalidDuration orig))
        else (wrap_int64 d, None)
    end.

(** [fmtFrac] formats the fraction of [v/10**prec] in front of [buf],
    omitting trailing zeros, and returns [v/10**prec]. *)
Fixpoint fmtFrac_loop (prec : nat) (v : Z) (print : bool) (buf : string)
  : string * Z * bool :=
  match prec with
  | O => (buf, v, print)
  | S k =>
      let digit := v mod 10 in
      let print := print || negb (digit =? 0) in
      fmtFrac_loop k (v / 10) print (if print then String (digit_char digit) buf else buf)
  end.

Definition fmtFrac (buf : string) (v : Z) (prec : nat) : string * Z :=
  let '(buf, v, print) := fmtFrac_loop prec v false buf in
  (if print then String "." buf else buf, v).

(** [fmtInt] formats [v] in front of [buf]. *)
Fixpoint fmtInt_loop (fuel : nat) (v : Z) (buf : string) : string :=
  match fuel with
  | O => buf
  | S k => if v >? 0 then fmtInt_loop k (v / 10) (String (digit_char (v mod 10)) buf) else buf
  end.

Definition fmtInt (buf : string) (v : Z) : string :=
  if v =? 0 then String "0" buf else fmtInt_loop 20 v buf.

(** [time.Duration.String]; the buffer is filled from its end, which is
    modelled by putting bytes in front of [buf]. *)
Definition Duration_String (d : Z) : string :=
  let u := wrap_uint64 d in
  let neg := d <? 0 in
  let u := if neg then wrap_uint64 (- u) else u in
  let buf :=
    if u <? Second then
      let buf := "s" in
      if u =? 0 then String "0" buf
      else
        let '(prec, buf) :=
          if u <? Microsecond then (0%nat, String "n" buf)
          else if u <? Millisecond then (3%nat, micro_sign +:+ buf)
          else (6%nat, String "m" buf) in
        let '(buf, u) := fmtFrac buf u prec in
        fmtInt buf u
    else
      let buf := "s" in
      let '(buf, u) := fmtFrac buf u 9 in
      let buf := fmtInt buf (u mod 60) in
      let u := u / 60 in
      if u >? 0 then
        let buf := fmtInt (String "m" buf) (u mod 60) in
        let u := u / 60 in
        if u >? 0 then fmtInt (String "h" buf) u else buf
      else buf in
  if neg then String "-" buf else buf.

(** ** loadgencfg: the rate flag *)

Record RateFlag := { Burst : Z; Interval : Z }.

(** The errors of [RateFlag.Set], one constructor per [fmt.Errorf] of the
    method, with the arguments of its message. *)
Inductive RateError :=
| InvalidFormat (s : string)
| InvalidBurst (before : string) (err : NumError)
| InvalidInterval (after : string) (err : DurationError)
| NonPositiveInterval (after : string).

(** [after[0] >= '0' && after[0] <= '9']; [after] is not empty where the
    method evaluates it. *)
Definition first_is_digit (after : string) : bool :=
  match after with
  | String c _ => is_digit c
  | EmptyString => false
  end.

(** [func (f *RateFlag) Set(s string) error]: the receiver after the call
    and the error. *)
Definition RateFlag_Set (f : RateFlag) (s : string) : RateFlag * option RateError :=
  let '(before, after, ok) := strings_Cut s "/" in
  if negb ok || bool_decide (before = "") || bool_decide (after = "") then
    (f, Some (InvalidFormat s))
  else
    match strconv_Atoi before with
    | (_, Some err) => (f, Some (InvalidBurst before err))
    | (burst, None) =>
        let after := if negb (first_is_digit after) then "1" +:+ after else after in
        match time_ParseDuration after with
        | (_, Some err) => (f, Some (InvalidInterval after err))
        | (interval, None) =>
            if interval <=? 0 then (f, Some (NonPositiveInterval after))
            else ({| Burst := burst; Interval := interval |}, None)
        end
    end.

(** [func (f *RateFlag) String() string]: [fmt.Sprintf("%d/%s", f.Burst, f.Interval)] *)
Definition RateFlag_String (f : RateFlag) : string :=
  fmt_d (Burst f) +:+ "/" +:+ Duration_String (Interval f).

(** ** loadgencfg: the configuration and its flags *)

(** [net/url]: the type [URL] and [url.Parse], which returns a nil URL
    together with every error. *)
Class NetURL := { URL : Type; url_Parse : string -> option URL }.

Record Config `{NetURL} := {
  ServerURL : option URL;
  SecretToken : string;
  APIKey : string;
  Secure : bool;
  EventRate : RateFlag;
  IgnoreErrors : bool;
  RewriteIDs : bool;
  RewriteTimestamps : bool;
  RewriteServiceNames : bool;
  RewriteServiceNodeNames : bool;
  RewriteServiceTargetNames : bool;
  RewriteSpanNames : bool;
  RewriteTransactionNames : bool;
  RewriteTransactionTypes : bool;
  Headers : option (gmap string string)
}.

(** The zero value of the package variable [Config]. *)
Definition Config_zero `{NetURL} : Config := {|
  ServerURL := None; SecretToken := ""; APIKey := ""; Secure := false;
  EventRate := {| Burst := 0; Interval := 0 |};
  IgnoreErrors := false; RewriteIDs := false; RewriteTimestamps := false;
  RewriteServiceNames := false; RewriteServiceNodeNames := false;
  RewriteServiceTargetNames := false; RewriteSpanNames := false;
  RewriteTransactionNames := false; RewriteTransactionTypes := false;
  Headers := None |}.

(** The keys of the table [rewriteNames] of [init]. *)
Inductive RewriteField :=
| service_name | service_node_name | service_target_name
| span_name | transaction_name | transaction_type.

Definition rewrite_field_name (r : RewriteField) : string :=
  match r with
  | service_name => "service.name"
  | service_node_name => "service.node.name"
  | service_target_name => "service.target.name"
  | span_name => "span.name"
  | transaction_name => "transaction.name"
  | transaction_type => "transaction.type"
  end.

Definition rewriteNames : list RewriteField :=
  [service_name; service_node_name; service_target_name;
   span_name; transaction_name; transaction_type].

(** The values registered by [init]: what each flag writes to. *)
Inductive FlagValue :=
| server_func
| secret_token_var
| api_key_var
| secure_var
| rewrite_timestamps_var
| rewrite_ids_var
| header_func
| event_rate_var
| ignore_errors_var
| rewrite_var (r : RewriteField).

#[global] Instance RewriteField_eq_dec : EqDecision RewriteField.
Proof. solve_decision. Defined.

#[global] Instance FlagValue_eq_dec : EqDecision FlagValue.
Proof. solve_decision. Defined.

(** [fmt.Sprintf("rewrite-%ss", strings.Replace(field, ".", "-", -1))] *)
Definition rewrite_flag_name (r : RewriteField) : string :=
  "rewrite-" +:+ strings_Replace (rewrite_field_name r) "." "-" +:+ "s".

(** The registrations of [init], in order: name and value. *)
Definition registrations : list (string * FlagValue) :=
  [ ("server", server_func); ("secret-token", secret_token_var);
    ("api-key", api_key_var); ("secure", secure_var);
    ("rewrite-timestamps", rewrite_timestamps_var);
    ("rewrite-ids", rewrite_ids_var); ("header", header_func);
    ("event-rate", event_rate_var); ("ignore-errors", ignore_errors_var) ]
  ++ map (fun r => (rewrite_flag_name r, rewrite_var r)) rewriteNames.

(** [flag.CommandLine.formal] once [init] has registered its flags. *)
Definition formal : gmap string FlagValue := list_to_map registrations.

Inductive FlagError :=
| ErrNoSuchFlag (name : string)
| InvalidURL (server : string)
| ErrParse
| InvalidHeaderFormat (s : string)
| ErrRate (e : RateError).

Section Flags.
Context `{NetURL}.

(** Assignments to the fields of [Config]. *)
Definition set_ServerURL (v : option URL) (c : Config) : Config :=
  {| ServerURL := v; SecretToken := SecretToken c; APIKey := APIKey c;
     Secure := Secure c; EventRate := EventRate c; IgnoreErrors := IgnoreErrors c;
     RewriteIDs := RewriteIDs c; RewriteTimestamps := RewriteTimestamps c;
     RewriteServiceNames := RewriteServiceNames c;
     RewriteServiceNodeNames := RewriteServiceNodeNames c;
     RewriteServiceTargetNames := RewriteServiceTargetNames c;
     RewriteSpanNames := RewriteSpanNames c;
     RewriteTransactionNames := RewriteTransactionNames c;
     RewriteTransactionTypes := RewriteTransactionTypes c; Headers := Headers c |}.

Definition set_SecretToken (v : string) (c : Config) : Config :=
  {| ServerURL := ServerURL c; SecretToken := v; APIKey := APIKey c; Secure := Secure c;
     EventRate := EventRate c; IgnoreErrors := IgnoreErrors c;
     RewriteIDs := RewriteIDs c; RewriteTimestamps := RewriteTimestamps c;
     RewriteServiceNames := RewriteServiceNames c;
     RewriteServiceNodeNames := RewriteServiceNodeNames c;
     RewriteServiceTargetNames := RewriteServiceTargetNames c;
     RewriteSpanNames := RewriteSpanNames c;
     RewriteTransactionNames := RewriteTransactionNames c;
     RewriteTransactionTypes := RewriteTransactionTypes c; Headers := Headers c |}.

Definition set_APIKey (v : string) (c : Config) : Config :=
  {| ServerURL := ServerURL c; SecretToken := SecretToken c; APIKey := v;
     Secure := Secure c; EventRate := EventRate c; IgnoreErrors := IgnoreErrors c;
     RewriteIDs := RewriteIDs c; RewriteTimestamps := RewriteTimestamps c;
     RewriteServiceNames := RewriteServiceNames c;
     RewriteServiceNodeNames := RewriteServiceNodeNames c;
     RewriteServiceTargetNames := RewriteServiceTargetNames c;
     RewriteSpanNames := RewriteSpanNames c;
     RewriteTransactionNames := RewriteTransactionNames c;
     RewriteTransactionTypes := RewriteTransactionTypes c; Headers := Headers c |}.

Definition set_Secure (v : bool) (c : Config) : Config :=
  {| ServerURL := ServerURL c; SecretToken := SecretToken c; APIKey := APIKey c;
     Secure := v; EventRate := EventRate c; IgnoreErrors := IgnoreErrors c;
     RewriteIDs := RewriteIDs c; RewriteTimestamps := RewriteTimestamps c;
     RewriteServiceNames := RewriteServiceNames c;
     RewriteServiceNodeNames := RewriteServiceNodeNames c;
     RewriteServiceTargetNames := RewriteServiceTargetNames c;
     RewriteSpanNames := RewriteSpanNames c;
     RewriteTransactionNames := RewriteTransactionNames c;
     RewriteTransactionTypes := RewriteTransactionTypes c; Headers := Headers c |}.

Definition set_EventRate (v : RateFlag) (c : Config) : Config :=
  {| ServerURL := ServerURL c; SecretToken := SecretToken c; APIKey := APIKey c;
     Secure := Secure c; EventRate := v; IgnoreErrors := IgnoreErrors c;
     RewriteIDs := RewriteIDs c; RewriteTimestamps := RewriteTimestamps c;
     RewriteServiceNames := RewriteServiceNames c;
     RewriteServiceNodeNames := RewriteServiceNodeNames c;
     RewriteServiceTargetNames := RewriteServiceTargetNames c;
     RewriteSpanNames := RewriteSpanNames c;
     RewriteTransactionNames := RewriteTransactionNames c;
     RewriteTransactionTypes := RewriteTransactionTypes c; Headers := Headers c |}.

Definition set_IgnoreErrors (v : bool) (c : Config) : Config :=
  {| ServerURL := ServerURL c; SecretToken := SecretToken c; APIKey := APIKey c;
     Secure := Secure c; EventRate := EventRate c; IgnoreErrors := v;
     RewriteIDs := RewriteIDs c; RewriteTimestamps := RewriteTimestamps c;
     RewriteServiceNames := RewriteServiceNames c;
     RewriteServiceNodeNames := RewriteServiceNodeNames c;
     RewriteServiceTargetNames := RewriteServiceTargetNames c;
     RewriteSpanNames := RewriteSpanNames c;
     RewriteTransactionNames := RewriteTransactionNames c;
     RewriteTransactionTypes := RewriteTransactionTypes c; Headers := Headers c |}.

Definition set_RewriteIDs (v : bool) (c : Config) : Config :=
  {| ServerURL := ServerURL c; SecretToken := SecretToken c; APIKey := APIKey c;
     Secure := Secure c; EventRate := EventRate c; IgnoreErrors := IgnoreErrors c;
     RewriteIDs := v; RewriteTimestamps := RewriteTimestamps c;
     RewriteServiceNames := RewriteServiceNames c;
     RewriteServiceNodeNames := RewriteServiceNodeNames c;
     RewriteServiceTargetNames := RewriteServiceTargetNames c;
     RewriteSpanNames := RewriteSpanNames c;
     RewriteTransactionNames := RewriteTransactionNames c;
     RewriteTransactionTypes := RewriteTransactionTypes c; Headers := Headers c |}.

Definition set_RewriteTimestamps (v : bool) (c : Config) : Config :=
  {| ServerURL := ServerURL c; SecretToken := SecretToken c; APIKey := APIKey c;
     Secure := Secure c; EventRate := EventRate c; IgnoreErrors := IgnoreErrors c;
     RewriteIDs := RewriteIDs c; RewriteTimestamps := v;
     RewriteServiceNames := RewriteServiceNames c;
     RewriteServiceNodeNames := RewriteServiceNodeNames c;
     RewriteServiceTargetNames := RewriteServiceTargetNames c;
     RewriteSpanNames := RewriteSpanNames c;
     RewriteTransactionNames := RewriteTransactionNames c;
     RewriteTransactionTypes := RewriteTransactionTypes c; Headers := Headers c |}.

Definition set_RewriteServiceNames (v : bool) (c : Config) : Config :=
  {| ServerURL := ServerURL c; SecretToken := SecretToken c; APIKey := APIKey c;
     Secure := Secure c; EventRate := EventRate c; IgnoreErrors := IgnoreErrors c;
     RewriteIDs := RewriteIDs c; RewriteTimestamps := RewriteTimestamps c;
     RewriteServiceNames := v; RewriteServiceNodeNames := RewriteServiceNodeNames c;
     RewriteServiceTargetNames := RewriteServiceTargetNames c;
     RewriteSpanNames := RewriteSpanNames c;
     RewriteTransactionNames := RewriteTransactionNames c;
     RewriteTransactionTypes := RewriteTransactionTypes c; Headers := Headers c |}.

Definition set_RewriteServiceNodeNames (v : bool) (c : Config) : Config :=
  {| ServerURL := ServerURL c; SecretToken := SecretToken c; APIKey := APIKey c;
     Secure := Secure c; EventRate := EventRate c; IgnoreErrors := IgnoreErrors c;
     RewriteIDs := RewriteIDs c; RewriteTimestamps := RewriteTimestamps c;
     RewriteServiceNames := RewriteServiceNames c; RewriteServiceNodeNames := v;
     RewriteServiceTargetNames := RewriteServiceTargetNames c;
     RewriteSpanNames := RewriteSpanNames c;
     RewriteTransactionNames := RewriteTransactionNames c;
     RewriteTransactionTypes := RewriteTransactionTypes c; Headers := Headers c |}.

Definition set_RewriteServiceTargetNames (v : bool) (c : Config) : Config :=
  {| ServerURL := ServerURL c; SecretToken := SecretToken c; APIKey := APIKey c;
     Secure := Secure c; EventRate := EventRate c; IgnoreErrors := IgnoreErrors c;
     RewriteIDs := RewriteIDs c; RewriteTimestamps := RewriteTimestamps c;
     RewriteServiceNames := RewriteServiceNames c;
     RewriteServiceNodeNames := RewriteServiceNodeNames c;
     RewriteServiceTargetNames := v; RewriteSpanNames := RewriteSpanNames c;
     RewriteTransactionNames := RewriteTransactionNames c;
     RewriteTransactionTypes := RewriteTransactionTypes c; Headers := Headers c |}.

Definition set_RewriteSpanNames (v : bool) (c : Config) : Config :=
  {| ServerURL := ServerURL c; SecretToken := SecretToken c; APIKey := APIKey c;
     Secure := Secure c; EventRate := EventRate c; IgnoreErrors := IgnoreErrors c;
     RewriteIDs := RewriteIDs c; RewriteTimestamps := RewriteTimestamps c;
     RewriteServiceNames := RewriteServiceNames c;
     RewriteServiceNodeNames := RewriteServiceNodeNames c;
     RewriteServiceTargetNames := RewriteServiceTargetNames c; RewriteSpanNames := v;
     RewriteTransactionNames := RewriteTransactionNames c;
     RewriteTransactionTypes := RewriteTransactionTypes c; Headers := Headers c |}.

Definition set_RewriteTransactionNames (v : bool) (c : Config) : Config :=
  {| ServerURL := ServerURL c; SecretToken := SecretToken c; APIKey := APIKey c;
     Secure := Secure c; EventRate := EventRate c; IgnoreErrors := IgnoreErrors c;
     RewriteIDs := RewriteIDs c; RewriteTimestamps := RewriteTimestamps c;
     RewriteServiceNames := RewriteServiceNames c;
     RewriteServiceNodeNames := RewriteServiceNodeNames c;
     RewriteServiceTargetNames := RewriteServiceTargetNames c;
     RewriteSpanNames := RewriteSpanNames c; RewriteTransactionNames := v;
     RewriteTransactionTypes := RewriteTransactionTypes c; Headers := Headers c |}.

Definition set_RewriteTransactionTypes (v : bool) (c : Config) : Config :=
  {| ServerURL := ServerURL c; SecretToken := SecretToken c; APIKey := APIKey c;
     Secure := Secure c; EventRate := EventRate c; IgnoreErrors := IgnoreErrors c;
     RewriteIDs := RewriteIDs c; RewriteTimestamps := RewriteTimestamps c;
     RewriteServiceNames := RewriteServiceNames c;
     RewriteServiceNodeNames := RewriteServiceNodeNames c;
     RewriteServiceTargetNames := RewriteServiceTargetNames c;
     RewriteSpanNames := RewriteSpanNames c;
     RewriteTransactionNames := RewriteTransactionNames c; RewriteTransactionTypes := v;
     Headers := Headers c |}.

Definition set_Headers (v : option (gmap string string)) (c : Config) : Config :=
  {| ServerURL := ServerURL c; SecretToken := SecretToken c; APIKey := APIKey c;
     Secure := Secure c; EventRate := EventRate c; IgnoreErrors := IgnoreErrors c;
     RewriteIDs := RewriteIDs c; RewriteTimestamps := RewriteTimestamps c;
     RewriteServiceNames := RewriteServiceNames c;
     RewriteServiceNodeNames := RewriteServiceNodeNames c;
     RewriteServiceTargetNames := RewriteServiceTargetNames c;
     RewriteSpanNames := RewriteSpanNames c;
     RewriteTransactionNames := RewriteTransactionNames c;
     RewriteTransactionTypes := RewriteTransactionTypes c; Headers := v |}.

(** The function given to [flag.Func] for [server]. *)
Definition server_Set (c : Config) (server : string) : Config * option FlagError :=
  if bool_decide (server <> "") then
    match url_Parse server with
    | Some u => (set_ServerURL (Some u) c, None)
    | None => (set_ServerURL None c, Some (InvalidURL server))
    end
  else (c, None).

(** The function given to [flag.Func] for [header]. *)
Definition header_Set (c : Config) (s : string) : Config * option FlagError :=
  let '(k, v, ok) := strings_Cut s "=" in
  if negb ok then (c, Some (InvalidHeaderFormat s))
  else
    let headers :=
      match Headers c with
      | Some m => if bool_decide (size m = 0%nat) then ∅ else m
      | None => ∅
      end in
    (set_Headers (Some (<[k := v]> headers)) c, None).

(** [Set] on a [boolValue] of package [flag]: the variable is assigned the
    result of [strconv.ParseBool] also when that fails. *)
Definition boolValue_Set (s : string) : bool * option FlagError :=
  match strconv_ParseBool s with
  | (v, Some _) => (v, Some ErrParse)
  | (v, None) => (v, None)
  end.

Definition set_bool (upd : bool -> Config -> Config) (c : Config) (s : string)
  : Config * option FlagError :=
  let '(v, err) := boolValue_Set s in (upd v c, err).

Definition set_rewrite (r : RewriteField) (v : bool) (c : Config) : Config :=
  match r with
  | service_name => set_RewriteServiceNames v c
  | service_node_name => set_RewriteServiceNodeNames v c
  | service_target_name => set_RewriteServiceTargetNames v c
  | span_name => set_RewriteSpanNames v c
  | transaction_name => set_RewriteTransactionNames v c
  | transaction_type => set_RewriteTransactionTypes v c
  end.

(** [flag.Value.Set] of each registered value. *)
Definition Value_Set (fv : FlagValue) (c : Config) (value : string)
  : Config * option FlagError :=
  match fv with
  | server_func => server_Set c value
  | secret_token_var => (set_SecretToken value c, None)
  | api_key_var => (set_APIKey value c, None)
  | secure_var => set_bool set_Secure c value
  | rewrite_timestamps_var => set_bool set_RewriteTimestamps c value
  | rewrite_ids_var => set_bool set_RewriteIDs c value
  | header_func => header_Set c value
  | event_rate_var =>
      let '(f, err) := RateFlag_Set (EventRate c) value in
      (set_EventRate f c, ErrRate <$> err)
  | ignore_errors_var => set_bool set_IgnoreErrors c value
  | rewrite_var r => set_bool (set_rewrite r) c value
  end.

(** [flag.Set(name, value)] *)
Definition flag_Set (c : Config) (name value : string) : Config * option FlagError :=
  match formal !! name with
  | None => (c, Some (ErrNoSuchFlag name))
  | Some fv => Value_Set fv c value
  end.

(** [os.Getenv] on an environment given as a finite map. *)
Definition os_Getenv (env : gmap string string) (name : string) : string :=
  default "" (env !! name).

Definition getEnvOrDefault (env : gmap string string) (name defaultValue : string) : string :=
  let value := os_Getenv env name in
  if bool_decide (value <> "") then value else defaultValue.

(** [flagEnvMap]: flag name, environment key, default value. *)
Definition flagEnvList : list (string * (string * string)) :=
  [ ("server", ("ELASTIC_APM_SERVER_URL", "http://127.0.0.1:8200"));
    ("secret-token", ("ELASTIC_APM_SECRET_TOKEN", ""));
    ("api-key", ("ELASTIC_APM_API_KEY", ""));
    ("secure", ("ELASTIC_APM_VERIFY_SERVER_CERT", "false")) ].

Definition flagEnvMap : gmap string (string * string) := list_to_map flagEnvList.

(** The body of the loop of [setFlagsFromEnv]: the result of [flag.Set]
    is dropped. *)
Definition setFlagFromEnv (env : gmap string string) (c : Config) (k : string) : Config :=
  match flagEnvMap !! k with
  | Some (name, defaultValue) => fst (flag_Set c k (getEnvOrDefault env name defaultValue))
  | None => c
  end.

(** [setFlagsFromEnv]; Go ranges over [flagEnvMap] in an unspecified
    order, [order] is the order of one run. *)
Definition setFlagsFromEnv (order : list string) (env : gmap string string) (c : Config)
  : Config :=
  foldl (setFlagFromEnv env) c order.

(** [init]: the flags are registered ([formal]) on the zero [Config],
    then seeded from the environment. *)
Definition init (order : list string) (env : gmap string string) : Config :=
  setFlagsFromEnv order env Config_zero.

(** Modelled from the spec: the call of [flag.Parse] by the command that
    imports the package.  "standard flag parsing then overrides the value
    only if the corresponding flag is supplied on the invocation" and "any
    flag value that fails validation terminates the process": the command
    line is the list of the (name, value) occurrences in the order given,
    each is set as by [flag.Set], and the first error ends the run. *)
Fixpoint flag_Parse (c : Config) (args : list (string * string))
  : Config * option FlagError :=
  match args with
  | [] => (c, None)
  | (name, value) :: rest =>
      match flag_Set c name value with
      | (c', None) => flag_Parse c' rest
      | (c', Some err) => (c', Some err)
      end
  end.

(** The configuration the program runs with. *)
Definition resolve (order : list string) (env : gmap string string)
  (args : list (string * string)) : Config * option FlagError :=
  flag_Parse (init order env) args.
End Flags.

(** ** Vocabulary of the statements *)

(** [c] occurs in [s]. *)
Fixpoint str_mem (c : ascii) (s : string) : bool :=
  match s with
  | EmptyString => false
  | String a r => Ascii.eqb a c || str_mem c r
  end.

(** Every byte of [s] is a decimal digit. *)
Fixpoint all_digits (s : string) : bool :=
  match s with
  | EmptyString => true
  | String c r => is_digit c && all_digits r
  end.

(** The number a string of digits denotes, read after the digits of [n]. *)
Fixpoint decimal_value (s : string) (n : Z) : Z :=
  match s with
  | EmptyString => n
  | String c r => decimal_value r (n * 10 + (byte_of c - 48))
  end.

Definition in_int64 (n : Z) : Prop := minInt64 <= n <= maxInt64.

(** The header mapping as a finite map: a nil map has no entry. *)
Definition headers_of `{NetURL} (c : Config) : gmap string string :=
  default ∅ (Headers c).

(** The value of the last occurrence of the flag [name] on the command line. *)
Fixpoint last_value (name : string) (args : list (string * string)) : option string :=
  match args with
  | [] => None
  | (n, v) :: rest =>
      match last_value name rest with
      | Some w => Some w
      | None => if bool_decide (n = name) then Some v else None
      end
  end.

(** The same, the occurrences with an empty value left out: the function
    of the [server] flag does nothing on them. *)
Fixpoint last_nonempty_value (name : string) (args : list (string * string)) : option string :=
  match args with
  | [] => None
  | (n, v) :: rest =>
      match last_nonempty_value name rest with
      | Some w => Some w
      | None => if bool_decide (n = name /\ v <> "") then Some v else None
      end
  end.

(** The name under which [init] registers each value. *)
Definition flag_name (fv : FlagValue) : string :=
  match fv with
  | server_func => "server"
  | secret_token_var => "secret-token"
  | api_key_var => "api-key"
  | secure_var => "secure"
  | rewrite_timestamps_var => "rewrite-timestamps"
  | rewrite_ids_var => "rewrite-ids"
  | header_func => "header"
  | event_rate_var => "event-rate"
  | ignore_errors_var => "ignore-errors"
  | rewrite_var r => rewrite_flag_name r
  end.

(** A parser that keeps the text of the URL, for closed instances of the
    statements about the server endpoint; they hold for every parser. *)
Definition TextURL : NetURL := {| URL := string; url_Parse := fun s => Some s |}.

(** The keys of [flagEnvMap] in the order they are written. *)
Definition flagEnvKeys : list string := ["server"; "secret-token"; "api-key"; "secure"].

(** The toggle of a rewrite field. *)
Definition get_rewrite `{NetURL} (r : RewriteField) (c : Config) : bool :=
  match r with
  | service_name => RewriteServiceNames c
  | service_node_name => RewriteServiceNodeNames c
  | service_target_name => RewriteServiceTargetNames c
  | span_name => RewriteSpanNames c
  | transaction_name => RewriteTransactionNames c
  | transaction_type => RewriteTransactionTypes c
  end.

(** The entries that the occurrences of the header flag on a command line
    denote, in the order given: each value cut at its first ['=']. *)
Fixpoint header_entries (args : list (string * string)) : list (string * string) :=
  match args with
  | [] => []
  | (n, v) :: rest =>
      if bool_decide (n = "header") then
        let '(k, x, _) := strings_Cut v "=" in (k, x) :: header_entries rest
      else header_entries rest
  end.

(** The fields of [Config] that have no environment variable. *)
Definition plain_fields `{NetURL} (c : Config)
  : RateFlag * option (gmap string string) * list bool :=
  (EventRate c, Headers c,
   [IgnoreErrors c; RewriteIDs c; RewriteTimestamps c; RewriteServiceNames c;
    RewriteServiceNodeNames c; RewriteServiceTargetNames c; RewriteSpanNames c;
    RewriteTransactionNames c; RewriteTransactionTypes c]).

(** ** The embedded library functions on the test vectors of their Go packages *)

Example Cut_ex1 : strings_Cut "200/5s" "/" = ("200", "5s", true).
Proof. reflexivity. Qed.
Example Cut_ex2 : strings_Cut "noequalsign" "=" = ("noequalsign", "", false).
Proof. reflexivity. Qed.
Example Atoi_ex1 : strconv_Atoi "-15" = (-15, None).
Proof. reflexivity. Qed.
Example Atoi_ex2 : strconv_Atoi "9223372036854775807" = (9223372036854775807, None).
Proof. vm_compute. reflexivity. Qed.
Example Atoi_ex3 : strconv_Atoi "9223372036854775808" = (9223372036854775807, Some ErrRange).
Proof. vm_compute. reflexivity. Qed.
Example Atoi_ex4 : strconv_Atoi "-9223372036854775808" = (-9223372036854775808, None).
Proof. vm_compute. reflexivity. Qed.
Example Atoi_ex5 : strconv_Atoi "1_0" = (0, Some ErrSyntax).
Proof. vm_compute. reflexivity. Qed.
Example fmt_d_ex1 : fmt_d (-9223372036854775808) = "-9223372036854775808".
Proof. vm_compute. reflexivity. Qed.
Example fmt_d_ex2 : fmt_d 0 = "0" /\ fmt_d 1234567890123 = "1234567890123".
Proof. vm_compute. split; reflexivity. Qed.
Example ParseDuration_ex1 : time_ParseDuration "1h15m30.5s" = (4530500000000, None).
Proof. vm_compute. reflexivity. Qed.
Example ParseDuration_ex2 : time_ParseDuration "-1.5h" = (-5400000000000, None).
Proof. vm_compute. reflexivity. Qed.
Example ParseDuration_ex3 : time_ParseDuration "1-1s" = (0, Some (ErrUnknownUnit "-" "1-1s")).
Proof. vm_compute. reflexivity. Qed.
Example ParseDuration_ex4 : time_ParseDuration "5" = (0, Some (ErrMissingUnit "5")).
Proof. vm_compute. reflexivity. Qed.
Example ParseDuration_ex5 : time_ParseDuration "0.100000000000000000000h" = (360000000000, None).
Proof. vm_compute. reflexivity. Qed.
Example ParseDuration_ex6 : time_ParseDuration "0.3333333333333333333h" = (20 * Minute, None).
Proof. vm_compute. reflexivity. Qed.
Example ParseDuration_ex10 :
  time_ParseDuration "0.830103483285477580700h"
  = (49 * Minute + 48 * Second + 372539827 * Nanosecond, None).
Proof. vm_compute. reflexivity. Qed.
Example ParseDuration_ex11 :
  time_ParseDuration "9223372036854775.807us" = (2 ^ 63 - 1, None)
  /\ time_ParseDuration "-9223372036854775.808us" = (- 2 ^ 63, None)
  /\ time_ParseDuration "-2562047h47m16.854775808s" = (- 2 ^ 63, None)
  /\ time_ParseDuration "9223372036s854ms775us807ns" = (2 ^ 63 - 1, None)
  /\ time_ParseDuration "9007199254740993ns" = (2 ^ 53 + 1, None).
Proof. vm_compute. repeat split; reflexivity. Qed.
Example ParseDuration_ex12 :
  time_ParseDuration "9223372036854775808ns" = (0, Some (ErrInvalidDuration "9223372036854775808ns"))
  /\ time_ParseDuration "3000000h" = (0, Some (ErrInvalidDuration "3000000h"))
  /\ time_ParseDuration "9223372036854775.808us" = (0, Some (ErrInvalidDuration "9223372036854775.808us"))
  /\ time_ParseDuration "" = (0, Some (ErrInvalidDuration ""))
  /\ time_ParseDuration "+" = (0, Some (ErrInvalidDuration "+"))
  /\ time_ParseDuration "0" = (0, None)
  /\ time_ParseDuration "+0" = (0, None)
  /\ time_ParseDuration "1d" = (0, Some (ErrUnknownUnit "d" "1d")).
Proof. vm_compute. repeat split; reflexivity. Qed.
Example ParseDuration_ex7 : time_ParseDuration "9223372036854775807ns" = (9223372036854775807, None).
Proof. vm_compute. reflexivity. Qed.
Example ParseDuration_ex8 : time_ParseDuration "-9223372036854775808ns" = (-9223372036854775808, None).
Proof. vm_compute. reflexivity. Qed.
Example ParseDuration_ex9 : time_ParseDuration ".s" = (0, Some (ErrInvalidDuration ".s")).
Proof. vm_compute. reflexivity. Qed.
Example Duration_String_ex1 : Duration_String 4530500000000 = "1h15m30.5s".
Proof. vm_compute. reflexivity. Qed.
Example Duration_String_ex2 : Duration_String 1500 = "1.5" +:+ micro_sign +:+ "s".
Proof. vm_compute. reflexivity. Qed.
Example Duration_String_ex3 : Duration_String (-2000000) = "-2ms" /\ Duration_String 0 = "0s".
Proof. vm_compute. split; reflexivity. Qed.

(** ** strings.Cut with a one-byte separator *)

Lemma append_cons a k r : String a k +:+ r = String a (k +:+ r).
Proof. reflexivity. Qed.

Lemma append_nil_l r : "" +:+ r = r.
Proof. reflexivity. Qed.

Lemma prefix_byte c s :
  String.prefix (String c "") s = match s with String a _ => Ascii.eqb a c | "" => false end.
Proof.
  destruct s as [| a r]; simpl; [reflexivity |].
  destruct (ascii_dec c a) as [-> | Hne].
  - rewrite Ascii.eqb_refl. now destruct r.
  - symmetry. apply Ascii.eqb_neq. congruence.
Qed.

Lemma str_mem_split c s :
  str_mem c s = true -> exists k v, s = k +:+ String c v /\ str_mem c k = false.
Proof.
  induction s as [| a r IH]; simpl; [discriminate |].
  destruct (Ascii.eqb a c) eqn:Hac; simpl.
  - intros _. apply Ascii.eqb_eq in Hac as ->. exists "", r. split; reflexivity.
  - intros Hr. destruct (IH Hr) as (k & v & -> & Hk).
    exists (String a k), v. split; [reflexivity |]. simpl. now rewrite Hac.
Qed.

Lemma str_mem_app c k r : str_mem c (k +:+ r) = str_mem c k || str_mem c r.
Proof.
  induction k as [| a k IH]; [reflexivity |].
  rewrite append_cons. simpl. rewrite IH. now rewrite orb_assoc.
Qed.

Lemma Index_byte_found c k v :
  str_mem c k = false ->
  strings_Index (k +:+ String c v) (String c "") = Some (String.length k).
Proof.
  induction k as [| a k IH]; intros Hk.
  - rewrite append_nil_l. unfold strings_Index. rewrite prefix_byte, Ascii.eqb_refl.
    reflexivity.
  - simpl in Hk. apply orb_false_elim in Hk as [Hac Hk].
    rewrite append_cons.
    change (strings_Index (String a (k +:+ String c v)) (String c ""))
      with (if String.prefix (String c "") (String a (k +:+ String c v)) then Some 0%nat
            else S <$> strings_Index (k +:+ String c v) (String c "")).
    rewrite prefix_byte, Hac, (IH Hk). reflexivity.
Qed.

Lemma Index_byte_none c s :
  str_mem c s = false -> strings_Index s (String c "") = None.
Proof.
  induction s as [| a r IH]; intros Hs; [reflexivity |].
  simpl in Hs. apply orb_false_elim in Hs as [Hac Hr].
  change (strings_Index (String a r) (String c ""))
    with (if String.prefix (String c "") (String a r) then Some 0%nat
          else S <$> strings_Index r (String c "")).
  rewrite prefix_byte, Hac, (IH Hr). reflexivity.
Qed.

Lemma str_take_app k r : str_take (String.length k) (k +:+ r) = k.
Proof.
  induction k as [| a k IH]; [now destruct r |].
  rewrite append_cons. simpl. now rewrite IH.
Qed.

Lemma str_drop_app k r : str_drop (String.length k) (k +:+ r) = r.
Proof.
  induction k as [| a k IH]; [now destruct r |].
  rewrite append_cons. simpl. exact IH.
Qed.

Lemma str_drop_app_byte k c v : str_drop (String.length k + 1) (k +:+ String c v) = v.
Proof.
  induction k as [| a k IH]; [reflexivity |].
  rewrite append_cons. simpl. exact IH.
Qed.

(** [strings.Cut] with a one-byte separator cuts at its first occurrence. *)
Lemma Cut_byte_found c k v :
  str_mem c k = false -> strings_Cut (k +:+ String c v) (String c "") = (k, v, true).
Proof.
  intros Hk. unfold strings_Cut. rewrite (Index_byte_found c k v Hk).
  simpl String.length. now rewrite str_take_app, str_drop_app_byte.
Qed.

Lemma Cut_byte_none c s :
  str_mem c s = false -> strings_Cut s (String c "") = (s, "", false).
Proof. intros Hs. unfold strings_Cut. now rewrite (Index_byte_none c s Hs). Qed.

Lemma Cut_byte_cases c s :
  (str_mem c s = false /\ strings_Cut s (String c "") = (s, "", false))
  \/ (exists k v, s = k +:+ String c v /\ str_mem c k = false
                  /\ strings_Cut s (String c "") = (k, v, true)).
Proof.
  destruct (str_mem c s) eqn:Hs.
  - right. destruct (str_mem_split c s Hs) as (k & v & -> & Hk).
    exists k, v. auto using Cut_byte_found.
  - left. auto using Cut_byte_none.
Qed.

(** ** The rate flag: failure leaves the receiver alone *)

Lemma wrap_int64_range z : in_int64 (wrap_int64 z).
Proof.
  unfold in_int64, wrap_int64, minInt64, maxInt64.
  pose proof (Z.mod_pos_bound (z + 2 ^ 63) (2 ^ 64) ltac:(lia)). lia.
Qed.

Lemma wrap_uint64_range z : 0 <= wrap_uint64 z < 2 ^ 64.
Proof. unfold wrap_uint64. apply Z.mod_pos_bound. lia. Qed.

Lemma wrap_int64_small z : in_int64 z -> wrap_int64 z = z.
Proof.
  unfold in_int64, wrap_int64, minInt64, maxInt64. intros Hz.
  rewrite Z.mod_small; lia.
Qed.

Lemma wrap_uint64_small z : 0 <= z < 2 ^ 64 -> wrap_uint64 z = z.
Proof. unfold wrap_uint64. intros Hz. apply Z.mod_small. lia. Qed.

(** The cases of [RateFlag.Set], as its code has them. *)
Lemma RateFlag_Set_cases f s :
  (exists e, RateFlag_Set f s = (f, Some e))
  \/ (exists before after burst interval,
        strings_Cut s "/" = (before, after, true)
        /\ before <> "" /\ after <> ""
        /\ strconv_Atoi before = (burst, None)
        /\ time_ParseDuration (if first_is_digit after then after else "1" +:+ after)
           = (interval, None)
        /\ 0 < interval
        /\ RateFlag_Set f s = ({| Burst := burst; Interval := interval |}, None)).
Proof.
  unfold RateFlag_Set.
  destruct (strings_Cut s "/") as [[before after] ok] eqn:Hcut.
  destruct ok; simpl; [| left; eauto].
  case_bool_decide as Hb; simpl; [left; eauto |].
  case_bool_decide as Ha; simpl; [left; eauto |].
  destruct (strconv_Atoi before) as [burst [err |]] eqn:Hatoi; [left; eauto |].
  destruct (first_is_digit after) eqn:Hdig; simpl.
  - destruct (time_ParseDuration after) as [interval [err |]] eqn:Hdur; [left; eauto |].
    destruct (Z.leb_spec interval 0); [left; eauto |].
    right. exists before, after, burst, interval. rewrite Hdig. repeat split; auto.
  - destruct (time_ParseDuration ("1" +:+ after)) as [interval [err |]] eqn:Hdur;
      [left; eauto |].
    destruct (Z.leb_spec interval 0); [left; eauto |].
    right. exists before, after, burst, interval. rewrite Hdig. repeat split; auto.
Qed.

(** An input that starts with ['/'] has an empty burst and is rejected. *)
Lemma RateFlag_Set_empty_burst f after :
  RateFlag_Set f (String "/" after) = (f, Some (InvalidFormat (String "/" after))).
Proof.
  unfold RateFlag_Set.
  change (String "/" after) with ("" +:+ String "/" after).
  now rewrite (Cut_byte_found "/" "" after eq_refl).
Qed.

(** C5.  Whenever [RateFlag.Set] returns an error, whichever it is, the
    receiver is what it was before the call: neither [Burst] nor [Interval]
    has been assigned. *)
Theorem RateFlag_Set_failure_keeps_receiver (f : RateFlag) (s : string) (e : RateError) :
  snd (RateFlag_Set f s) = Some e -> fst (RateFlag_Set f s) = f.
Proof.
  intros Herr.
  destruct (RateFlag_Set_cases f s) as [[e' He] | (b & a & n & i & _ & _ & _ & _ & _ & _ & Hok)].
  - now rewrite He.
  - rewrite Hok in Herr. discriminate.
Qed.

Lemma RateFlag_Set_failure_keeps_receiver_witness :
  snd (RateFlag_Set {| Burst := 7; Interval := 9 |} "100") = Some (InvalidFormat "100")
  /\ fst (RateFlag_Set {| Burst := 7; Interval := 9 |} "100") = {| Burst := 7; Interval := 9 |}.
Proof.
  split; [reflexivity |].
  apply (RateFlag_Set_failure_keeps_receiver _ "100" (InvalidFormat "100")). reflexivity.
Defined.

(** Each failure path, on an input of its own. *)
Example RateFlag_Set_failure_paths (f : RateFlag) :
  RateFlag_Set f "100" = (f, Some (InvalidFormat "100"))
  /\ RateFlag_Set f "10/" = (f, Some (InvalidFormat "10/"))
  /\ RateFlag_Set f "/5s" = (f, Some (InvalidFormat "/5s"))
  /\ RateFlag_Set f "ten/5s" = (f, Some (InvalidBurst "ten" ErrSyntax))
  /\ RateFlag_Set f "10/5xs" = (f, Some (InvalidInterval "5xs" (ErrUnknownUnit "xs" "5xs")))
  /\ RateFlag_Set f "10/0s" = (f, Some (NonPositiveInterval "0s")).
Proof. repeat split; vm_compute; reflexivity. Qed.

(** ** The rate flag: what a successful call stores *)

Lemma Atoi_loop_range s : forall n m, in_int64 n -> Atoi_loop s n = Some m -> in_int64 m.
Proof.
  induction s as [| c r IH]; simpl; intros n m Hn Hm.
  - now inversion Hm; subst.
  - destruct (wrap_byte (byte_of c - 48) >? 9); [discriminate |].
    eapply IH; [| exact Hm]. apply wrap_int64_range.
Qed.

Lemma ParseInt_range s n : strconv_ParseInt s = (n, None) -> in_int64 n.
Proof.
  unfold strconv_ParseInt. destruct s as [| c r]; [discriminate |].
  destruct (strconv_ParseUint _) as [un [[|] |]]; try discriminate.
  - repeat (match goal with |- context [if ?b then _ else _] => destruct b end;
            try discriminate); intros [= <-]; apply wrap_int64_range.
  - repeat (match goal with |- context [if ?b then _ else _] => destruct b end;
            try discriminate); intros [= <-]; apply wrap_int64_range.
Qed.

Lemma Atoi_range s n : strconv_Atoi s = (n, None) -> in_int64 n.
Proof.
  unfold strconv_Atoi.
  destruct ((0 <? len s) && (len s <? 19)); [| apply ParseInt_range].
  destruct s as [| c r]; [discriminate |].
  destruct (_ && _); [discriminate |].
  destruct (Atoi_loop _ 0) as [m |] eqn:Hloop; [| discriminate].
  apply Atoi_loop_range in Hloop; [| unfold in_int64, minInt64, maxInt64; lia].
  destruct (Ascii.eqb c "-"); intros [= <-]; [apply wrap_int64_range | exact Hloop].
Qed.

Lemma ParseDuration_range s d : time_ParseDuration s = (d, None) -> in_int64 d.
Proof.
  unfold time_ParseDuration.
  repeat case_decide; try discriminate.
  - intros [= <-]. unfold in_int64, minInt64, maxInt64; lia.
  - destruct (ParseDuration_loop _ _ _ _) as [[d' | []] |]; try discriminate.
    repeat (match goal with |- context [if ?b then _ else _] => destruct b end;
            try discriminate); intros [= <-]; apply wrap_int64_range.
Qed.

(** C7 (as amended).  A successful [RateFlag.Set] stores a strictly positive
    [Interval], the duration [time.ParseDuration] returned for the text after
    the first ['/'] (with ["1"] in front when it does not start with a
    digit); the [Burst] it stores is the [int] [strconv.Atoi] returned for
    the text before that ['/'], of either sign. *)
Theorem RateFlag_Set_success_invariant (f : RateFlag) (s : string) :
  snd (RateFlag_Set f s) = None ->
  let before := fst (fst (strings_Cut s "/")) in
  let after := snd (fst (strings_Cut s "/")) in
  strconv_Atoi before = (Burst (fst (RateFlag_Set f s)), None)
  /\ time_ParseDuration (if first_is_digit after then after else "1" +:+ after)
     = (Interval (fst (RateFlag_Set f s)), None)
  /\ in_int64 (Burst (fst (RateFlag_Set f s)))
  /\ 0 < Interval (fst (RateFlag_Set f s)) <= maxInt64.
Proof.
  intros Hok.
  destruct (RateFlag_Set_cases f s)
    as [[e He] | (b & a & n & i & Hcut & _ & _ & Hatoi & Hdur & Hpos & Hset)].
  - rewrite He in Hok. discriminate.
  - rewrite Hset, Hcut. simpl.
    pose proof (Atoi_range _ _ Hatoi) as Hn. pose proof (ParseDuration_range _ _ Hdur) as Hi.
    unfold in_int64 in *. repeat split; auto; lia.
Qed.

Lemma RateFlag_Set_success_invariant_witness :
  let f := {| Burst := 0; Interval := 0 |} in
  snd (RateFlag_Set f "-200/5s") = None
  /\ strconv_Atoi "-200" = (Burst (fst (RateFlag_Set f "-200/5s")), None)
  /\ time_ParseDuration "5s" = (Interval (fst (RateFlag_Set f "-200/5s")), None)
  /\ Burst (fst (RateFlag_Set f "-200/5s")) = -200
  /\ in_int64 (Burst (fst (RateFlag_Set f "-200/5s")))
  /\ 0 < Interval (fst (RateFlag_Set f "-200/5s")) <= maxInt64.
Proof.
  intros f. split; [reflexivity |].
  destruct (RateFlag_Set_success_invariant f "-200/5s" eq_refl)
    as (Hburst & Hinterval & Hrange & Hpos).
  split; [exact Hburst |]. split; [exact Hinterval |]. split; [reflexivity |].
  split; [exact Hrange | exact Hpos].
Defined.

(** C7, as stated, fails: ["-5/1s"] is parsed, and the burst stored is
    negative. *)
Lemma RateFlag_Set_negative_burst :
  ~ (snd (RateFlag_Set {| Burst := 0; Interval := 0 |} "-5/1s") = None ->
     0 <= Burst (fst (RateFlag_Set {| Burst := 0; Interval := 0 |} "-5/1s"))
     /\ 0 < Interval (fst (RateFlag_Set {| Burst := 0; Interval := 0 |} "-5/1s"))).
Proof.
  assert (Hrun : RateFlag_Set {| Burst := 0; Interval := 0 |} "-5/1s"
                 = ({| Burst := -5; Interval := 1000000000 |}, None))
    by (vm_compute; reflexivity).
  rewrite Hrun. simpl. intros Hclaim. destruct (Hclaim eq_refl) as [Hburst _]. lia.
Qed.

(** ** The rate flag: zero and negative intervals, omitted burst, formatting *)

(** C4 (as amended).  ["10/0s"] fails with [NonPositiveInterval].
    ["10/-1s"] fails too, but with [InvalidInterval]: ['-'] is not a digit,
    so ["1"] is put in front of the interval and [time.ParseDuration] is
    given ["1-1s"], whose unit ["-"] it does not know. *)
Theorem RateFlag_Set_zero_and_negative_interval (f : RateFlag) :
  RateFlag_Set f "10/0s" = (f, Some (NonPositiveInterval "0s"))
  /\ RateFlag_Set f "10/-1s"
     = (f, Some (InvalidInterval "1-1s" (ErrUnknownUnit "-" "1-1s"))).
Proof. split; vm_compute; reflexivity. Qed.

(** C4, as stated, fails: the error of ["10/-1s"] is not
    [NonPositiveInterval]. *)
Lemma RateFlag_Set_negative_interval_not_NonPositive :
  ~ (exists after,
       snd (RateFlag_Set {| Burst := 0; Interval := 0 |} "10/-1s")
       = Some (NonPositiveInterval after)).
Proof. intros [after Hafter]. vm_compute in Hafter. discriminate. Qed.

(** C6 (as amended).  [RateFlag.Set] rejects every input whose burst is
    omitted, ["/s"] among them, with [InvalidFormat]; the shorthand with a
    burst, ["1/s"], is parsed and printed back as ["1/1s"], and the value
    parsed from ["5/2s"] is printed as ["5/2s"]. *)
Theorem RateFlag_Set_String_shorthand (f : RateFlag) (after : string) :
  RateFlag_Set f ("/" +:+ after) = (f, Some (InvalidFormat ("/" +:+ after)))
  /\ RateFlag_Set f "/s" = (f, Some (InvalidFormat "/s"))
  /\ snd (RateFlag_Set f "1/s") = None
  /\ RateFlag_String (fst (RateFlag_Set f "1/s")) = "1/1s"
  /\ snd (RateFlag_Set f "5/2s") = None
  /\ RateFlag_String (fst (RateFlag_Set f "5/2s")) = "5/2s".
Proof.
  split; [exact (RateFlag_Set_empty_burst f after) |].
  repeat split; vm_compute; reflexivity.
Qed.

(** C6, as stated, fails: ["/s"] is not accepted. *)
Lemma RateFlag_Set_bare_shorthand_rejected :
  ~ (snd (RateFlag_Set {| Burst := 0; Interval := 0 |} "/s") = None).
Proof. vm_compute. discriminate. Qed.

(** ** The header flag *)

Section HeaderFlag.
Context `{NetURL}.

Lemma formal_header : formal !! "header" = Some header_func.
Proof. vm_compute. reflexivity. Qed.

(** The lazily created map is the old map: a map of length 0 has no entry. *)
Lemma header_Set_found (c : Config) (k v : string) :
  str_mem "=" k = false ->
  header_Set c (k +:+ "=" +:+ v)
  = (set_Headers (Some (<[k := v]> (headers_of c))) c, None).
Proof.
  intros Hk. unfold header_Set.
  change (k +:+ "=" +:+ v) with (k +:+ String "=" v).
  rewrite (Cut_byte_found "=" k v Hk). simpl.
  do 3 f_equal. unfold headers_of.
  destruct (Headers c) as [m |]; simpl; [| reflexivity].
  case_bool_decide as Hm; [| reflexivity].
  apply map_size_empty_iff in Hm. now subst m.
Qed.

Lemma header_Set_missing (c : Config) (s : string) :
  str_mem "=" s = false -> header_Set c s = (c, Some (InvalidHeaderFormat s)).
Proof. intros Hs. unfold header_Set. now rewrite (Cut_byte_none "=" s Hs). Qed.

Lemma flag_Set_header (c : Config) (s : string) :
  flag_Set c "header" s = header_Set c s.
Proof. unfold flag_Set. now rewrite formal_header. Qed.

Lemma headers_of_set_Headers (m : gmap string string) (c : Config) :
  headers_of (set_Headers (Some m) c) = m.
Proof. reflexivity. Qed.

(** C8.  An occurrence [k=v] of the header flag (the key [k] being the
    text before the first ['=']) succeeds and inserts or overwrites the one
    entry of [k]; a second occurrence with the same key leaves only the
    last value; a value without ['='] fails with [InvalidHeaderFormat] and
    the configuration, with its mapping, is unchanged. *)
Theorem header_flag_last_wins (c : Config) (k v1 v2 s : string) :
  str_mem "=" k = false ->
  str_mem "=" s = false ->
  let r1 := flag_Set c "header" (k +:+ "=" +:+ v1) in
  let r2 := flag_Set (fst r1) "header" (k +:+ "=" +:+ v2) in
  (snd r1 = None /\ headers_of (fst r1) = <[k := v1]> (headers_of c))
  /\ (snd r2 = None /\ headers_of (fst r2) = <[k := v2]> (headers_of c)
      /\ headers_of (fst r2) !! k = Some v2)
  /\ flag_Set c "header" s = (c, Some (InvalidHeaderFormat s)).
Proof.
  intros Hk Hs r1 r2. subst r1 r2.
  rewrite !flag_Set_header, (header_Set_found c k v1 Hk). simpl.
  rewrite (header_Set_found _ k v2 Hk). simpl.
  rewrite !headers_of_set_Headers, insert_insert_eq, lookup_insert_eq.
  repeat split; auto using header_Set_missing.
Qed.

(** C10.  A header value is cut at its first ['=']: with no ['='] in [k],
    the value [k=v] stores [v], whatever it contains, under the key [k],
    both as they are written, and no other key changes. *)
Theorem header_flag_cut_at_first_separator (c : Config) (k v : string) :
  str_mem "=" k = false ->
  let r := flag_Set c "header" (k +:+ "=" +:+ v) in
  strings_Cut (k +:+ "=" +:+ v) "=" = (k, v, true)
  /\ snd r = None
  /\ headers_of (fst r) !! k = Some v
  /\ forall k', k' <> k -> headers_of (fst r) !! k' = headers_of c !! k'.
Proof.
  intros Hk r. subst r.
  rewrite flag_Set_header, (header_Set_found c k v Hk). simpl.
  rewrite headers_of_set_Headers, lookup_insert_eq.
  repeat split; [exact (Cut_byte_found "=" k v Hk) |].
  intros k' Hne. now rewrite lookup_insert_ne.
Qed.
End HeaderFlag.

Lemma header_flag_last_wins_witness :
  let c := @Config_zero TextURL in
  let r1 := flag_Set c "header" "X-Key=value1" in
  let r2 := flag_Set (fst r1) "header" "X-Key=value2" in
  (str_mem "=" "X-Key" = false /\ str_mem "=" "noequalsign" = false)
  /\ Headers (fst r2) = Some {[ "X-Key" := "value2" ]}
  /\ (snd r2 = None /\ headers_of (fst r2) = <[ "X-Key" := "value2" ]> (headers_of c)
      /\ headers_of (fst r2) !! "X-Key" = Some "value2")
  /\ flag_Set c "header" "noequalsign" = (c, Some (InvalidHeaderFormat "noequalsign")).
Proof.
  intros c r1 r2.
  pose proof (@header_flag_last_wins TextURL c "X-Key" "value1" "value2" "noequalsign"
                eq_refl eq_refl) as (_ & Hsecond & Hmissing).
  repeat split; try apply Hsecond; try exact Hmissing.
Defined.

Lemma header_flag_cut_at_first_separator_witness :
  let r := flag_Set (@Config_zero TextURL) "header" "k=a=b" in
  str_mem "=" "k" = false
  /\ strings_Cut "k=a=b" "=" = ("k", "a=b", true)
  /\ snd r = None
  /\ headers_of (fst r) !! "k" = Some "a=b".
Proof.
  intros r.
  pose proof (@header_flag_cut_at_first_separator TextURL Config_zero "k" "a=b" eq_refl)
    as (Hcut & Hok & Hk & _).
  repeat split; assumption.
Defined.

(** Nothing is trimmed: blanks around the key and the value are kept. *)
Example header_flag_keeps_blanks :
  Headers (fst (flag_Set (@Config_zero TextURL) "header" " k = v "))
  = Some {[ " k " := " v " ]}.
Proof. vm_compute. reflexivity. Qed.

(** ** Decimal digits: [%d] and [strconv.Atoi] *)

Lemma digit_cases d : 0 <= d <= 9 ->
  d = 0 \/ d = 1 \/ d = 2 \/ d = 3 \/ d = 4 \/ d = 5 \/ d = 6 \/ d = 7 \/ d = 8 \/ d = 9.
Proof. lia. Qed.

Lemma digit_char_spec d :
  0 <= d <= 9 -> is_digit (digit_char d) = true /\ byte_of (digit_char d) = 48 + d.
Proof.
  intros Hd. destruct (digit_cases d Hd) as [-> | [-> | [-> | [-> | [-> | [-> | [-> | [-> | [-> | ->]]]]]]]]];
    split; reflexivity.
Qed.

Lemma byte_of_range c : 0 <= byte_of c < 256.
Proof.
  unfold byte_of. pose proof (N_ascii_bounded c) as Hc. lia.
Qed.

Lemma is_digit_spec c : is_digit c = true <-> 48 <= byte_of c <= 57.
Proof. unfold is_digit. rewrite andb_true_iff, !Z.leb_le. tauto. Qed.

Lemma decimal_value_ge s : forall n, all_digits s = true -> 0 <= n -> n <= decimal_value s n.
Proof.
  induction s as [| c r IH]; simpl; intros n Hs Hn; [lia |].
  apply andb_true_iff in Hs as [Hc Hr]. apply is_digit_spec in Hc.
  specialize (IH (n * 10 + (byte_of c - 48)) Hr ltac:(lia)). lia.
Qed.

Lemma all_digits_no_byte c s : is_digit c = false -> all_digits s = true -> str_mem c s = false.
Proof.
  intros Hc. induction s as [| a r IH]; simpl; [reflexivity |].
  intros Hs. apply andb_true_iff in Hs as [Ha Hr]. rewrite (IH Hr), orb_false_r.
  apply Ascii.eqb_neq. intros ->. congruence.
Qed.

(** [fmtInteger_loop] writes the digits of [u] in front of the buffer. *)
Lemma fmtInteger_loop_spec fuel : forall u buf,
  0 <= u < 10 ^ Z.of_nat fuel -> (0 < fuel)%nat ->
  all_digits (fmtInteger_loop fuel u buf) = all_digits buf
  /\ decimal_value (fmtInteger_loop fuel u buf) 0 = decimal_value buf u
  /\ fmtInteger_loop fuel u buf <> "".
Proof.
  induction fuel as [| k IH]; intros u buf Hu Hfuel; [lia |].
  simpl fmtInteger_loop. destruct (Z.geb_spec u 10) as [Hge | Hlt].
  - assert (Hdiv : 0 <= u / 10 < 10 ^ Z.of_nat k).
    { rewrite Nat2Z.inj_succ, Z.pow_succ_r in Hu by lia.
      split; [apply Z.div_pos; lia | apply Z.div_lt_upper_bound; lia]. }
    assert (Hk : (0 < k)%nat).
    { destruct k; [| lia]. simpl in Hdiv. assert (1 <= u / 10) by (apply Z.div_le_lower_bound; lia). lia. }
    destruct (IH (u / 10) (String (digit_char (u - u / 10 * 10)) buf) Hdiv Hk) as (Hall & Hval & Hne).
    assert (Hd : 0 <= u - u / 10 * 10 <= 9).
    { pose proof (Z.mod_pos_bound u 10 ltac:(lia)). pose proof (Z.div_mod u 10 ltac:(lia)). lia. }
    destruct (digit_char_spec _ Hd) as [Hdig Hbyte].
    repeat split; [| | exact Hne].
    + rewrite Hall. simpl. now rewrite Hdig.
    + rewrite Hval. simpl. rewrite Hbyte. f_equal. lia.
  - destruct (digit_char_spec u ltac:(lia)) as [Hdig Hbyte].
    repeat split; [| | discriminate].
    + simpl. now rewrite Hdig.
    + simpl. rewrite Hbyte. f_equal. lia.
Qed.

(** The text [%d] prints for a non-negative [int]: its decimal digits. *)
Lemma fmt_d_nonneg n :
  0 <= n <= maxInt64 ->
  all_digits (fmt_d n) = true /\ decimal_value (fmt_d n) 0 = n /\ fmt_d n <> "".
Proof.
  unfold maxInt64. intros Hn. unfold fmt_d.
  rewrite (wrap_uint64_small n) by lia.
  rewrite (wrap_int64_small n) by (unfold in_int64, minInt64, maxInt64; lia).
  destruct (Z.ltb_spec n 0) as [? | _]; [lia |].
  destruct (fmtInteger_loop_spec 20 n "") as (Hall & Hval & Hne); [simpl; lia | lia |].
  auto.
Qed.

Lemma Atoi_loop_digits s : forall n,
  all_digits s = true -> 0 <= n -> decimal_value s n <= maxInt64 ->
  Atoi_loop s n = Some (decimal_value s n).
Proof.
  induction s as [| c r IH]; simpl; intros n Hs Hn Hmax; [reflexivity |].
  apply andb_true_iff in Hs as [Hc Hr]. apply is_digit_spec in Hc.
  unfold wrap_byte. rewrite (Z.mod_small (byte_of c - 48)) by lia.
  destruct (Z.gtb_spec (byte_of c - 48) 9) as [? | _]; [lia |].
  pose proof (decimal_value_ge r (n * 10 + (byte_of c - 48)) Hr ltac:(lia)).
  rewrite wrap_int64_small by (unfold in_int64, minInt64, maxInt64 in *; lia).
  apply IH; auto; lia.
Qed.

Lemma ParseUint_loop_digits s : forall n,
  all_digits s = true -> 0 <= n -> decimal_value s n <= maxInt64 ->
  ParseUint_loop s n = (decimal_value s n, None).
Proof.
  induction s as [| c r IH]; simpl; intros n Hs Hn Hmax; [reflexivity |].
  apply andb_true_iff in Hs as [Hc Hr]. rewrite Hc. apply is_digit_spec in Hc.
  pose proof (decimal_value_ge r (n * 10 + (byte_of c - 48)) Hr ltac:(lia)) as Hge.
  unfold maxInt64 in *. change (maxUint64 / 10 + 1) with 1844674407370955162.
  destruct (Z.geb_spec n 1844674407370955162) as [? | _]; [lia |].
  rewrite (wrap_uint64_small (n * 10)) by lia.
  rewrite (wrap_uint64_small (n * 10 + _)) by lia.
  destruct (Z.ltb_spec (n * 10 + (byte_of c - 48)) (n * 10)) as [? | _]; [lia |].
  unfold maxUint64.
  destruct (Z.gtb_spec (n * 10 + (byte_of c - 48)) (2 ^ 64 - 1)) as [? | _]; [lia |].
  simpl. apply IH; auto; lia.
Qed.

(** On a non-empty string of digits that denotes an [int], both paths of
    [strconv.Atoi] return the number denoted. *)
Lemma Atoi_digits s :
  all_digits s = true -> s <> "" -> decimal_value s 0 <= maxInt64 ->
  strconv_Atoi s = (decimal_value s 0, None).
Proof.
  intros Hs Hne Hmax. unfold strconv_Atoi.
  destruct s as [| c r]; [congruence |].
  assert (Hc : is_digit c = true) by (simpl in Hs; now apply andb_true_iff in Hs as [? _]).
  assert (Hminus : Ascii.eqb c "-" = false).
  { apply Ascii.eqb_neq. intros ->. discriminate. }
  assert (Hplus : Ascii.eqb c "+" = false).
  { apply Ascii.eqb_neq. intros ->. discriminate. }
  destruct ((0 <? len (String c r)) && (len (String c r) <? 19)).
  - rewrite Hminus, Hplus. simpl orb. cbv iota. simpl andb.
    now rewrite (Atoi_loop_digits (String c r) 0 Hs ltac:(lia) Hmax).
  - unfold strconv_ParseInt, strconv_ParseUint. rewrite Hminus, Hplus. simpl orb. cbv iota.
    rewrite (ParseUint_loop_digits (String c r) 0 Hs ltac:(lia) Hmax).
    pose proof (decimal_value_ge (String c r) 0 Hs ltac:(lia)) as Hge.
    unfold maxInt64 in Hmax. simpl negb.
    destruct (Z.geb_spec (decimal_value (String c r) 0) (2 ^ 63)) as [? | _]; [lia |].
    simpl andb. cbv iota.
    now rewrite wrap_int64_small by (unfold in_int64, minInt64, maxInt64; lia).
Qed.

(** [strconv.Atoi] reads back what [%d] prints for a non-negative [int]. *)
Lemma Atoi_fmt_d n : 0 <= n <= maxInt64 -> strconv_Atoi (fmt_d n) = (n, None).
Proof.
  intros Hn. destruct (fmt_d_nonneg n Hn) as (Hall & Hval & Hne).
  rewrite (Atoi_digits (fmt_d n) Hall Hne) by (rewrite Hval; lia).
  now rewrite Hval.
Qed.

(** ** The rate flag: burst and interval of a well-formed input *)

(** C1 (as amended).  For an [int] [burst >= 0] and an interval text [d]
    that starts with a decimal digit, that [time.ParseDuration] accepts and
    that denotes a positive duration, [RateFlag.Set] on ["{burst}/{d}"]
    succeeds and stores that burst and that duration. *)
Theorem RateFlag_Set_burst_interval (f : RateFlag) (burst : Z) (d : string) (interval : Z) :
  0 <= burst <= maxInt64 ->
  first_is_digit d = true ->
  time_ParseDuration d = (interval, None) ->
  0 < interval ->
  RateFlag_Set f (fmt_d burst +:+ "/" +:+ d) = ({| Burst := burst; Interval := interval |}, None).
Proof.
  intros Hburst Hdigit Hdur Hpos.
  destruct (fmt_d_nonneg burst Hburst) as (Hall & _ & Hne).
  unfold RateFlag_Set.
  change (fmt_d burst +:+ "/" +:+ d) with (fmt_d burst +:+ String "/" d).
  rewrite (Cut_byte_found "/" (fmt_d burst) d) by (now apply all_digits_no_byte).
  simpl negb. rewrite (bool_decide_eq_false_2 _ Hne).
  rewrite bool_decide_eq_false_2 by (intros ->; discriminate).
  simpl orb. cbv iota.
  rewrite (Atoi_fmt_d burst Hburst), Hdigit. simpl negb. cbv iota. rewrite Hdur.
  destruct (Z.leb_spec interval 0) as [? | _]; [lia | reflexivity].
Qed.

Lemma RateFlag_Set_burst_interval_witness :
  RateFlag_Set {| Burst := 0; Interval := 0 |} (fmt_d 200 +:+ "/" +:+ "1m30s")
  = ({| Burst := 200; Interval := 90 * Second |}, None).
Proof.
  apply (RateFlag_Set_burst_interval _ 200 "1m30s" (90 * Second)).
  - unfold maxInt64. lia.
  - reflexivity.
  - vm_compute. reflexivity.
  - unfold Second, Millisecond, Microsecond, Nanosecond. lia.
Defined.

(** C1, as stated, fails: ["+5s"] is parseable and denotes five seconds,
    but ["10/+5s"] is rejected, because ["1"] is put in front of an interval
    that does not start with a digit. *)
Lemma RateFlag_Set_signed_interval_rejected :
  ~ (time_ParseDuration "+5s" = (5 * Second, None) ->
     0 < 5 * Second ->
     RateFlag_Set {| Burst := 0; Interval := 0 |} (fmt_d 10 +:+ "/" +:+ "+5s")
     = ({| Burst := 10; Interval := 5 * Second |}, None)).
Proof.
  intros Hclaim.
  assert (Hdur : time_ParseDuration "+5s" = (5 * Second, None)) by (vm_compute; reflexivity).
  assert (Hpos : 0 < 5 * Second) by (vm_compute; reflexivity).
  specialize (Hclaim Hdur Hpos). vm_compute in Hclaim. discriminate.
Qed.

(** An interval that starts with the decimal point is accepted with
    another duration than the one it denotes. *)
Example RateFlag_Set_fraction_interval (f : RateFlag) :
  time_ParseDuration ".5s" = (500 * Millisecond, None)
  /\ RateFlag_Set f "10/.5s" = ({| Burst := 10; Interval := 1500 * Millisecond |}, None).
Proof. split; vm_compute; reflexivity. Qed.

(** ** time.ParseDuration: what one turn of the loop consumes *)

Lemma append_assoc (a b c : string) : (a +:+ b) +:+ c = a +:+ b +:+ c.
Proof.
  induction a as [| x a IH]; [reflexivity |].
  rewrite !append_cons. now rewrite IH.
Qed.

Lemma length_append (a b : string) :
  String.length (a +:+ b) = (String.length a + String.length b)%nat.
Proof.
  induction a as [| x a IH]; [reflexivity |].
  rewrite append_cons. simpl. now rewrite IH.
Qed.

Lemma unitMap_units u unit :
  unitMap !! u = Some unit -> str_mem "/" u = false /\ u <> "" /\ 0 < unit.
Proof.
  intros Hu. unfold unitMap in Hu. apply elem_of_list_to_map_2 in Hu.
  unfold unitList in Hu.
  repeat (apply elem_of_cons in Hu as [Hu | Hu];
          [inversion Hu; subst; repeat split; try reflexivity; discriminate |]).
  now apply elem_of_nil in Hu.
Qed.

(** [leadingInt] returns the input without its leading digits. *)
Lemma leadingInt_loop_rest s : forall x v s1,
  leadingInt_loop s x = Some (v, s1) ->
  exists p, s = p +:+ s1 /\ all_digits p = true.
Proof.
  induction s as [| c r IH]; simpl; intros x v s1 Hs.
  - inversion Hs; subst. now exists "".
  - destruct ((byte_of c <? 48) || (byte_of c >? 57)) eqn:Hc.
    + inversion Hs; subst. now exists "".
    + destruct (x >? 2 ^ 63 / 10); [discriminate |].
      destruct (wrap_uint64 (x * 10 + byte_of c - 48) >? 2 ^ 63); [discriminate |].
      destruct (IH _ _ _ Hs) as (p & -> & Hp).
      exists (String c p). split; [reflexivity |]. simpl. rewrite Hp, andb_true_r.
      apply orb_false_elim in Hc as [Hlo Hhi]. apply is_digit_spec. lia.
Qed.

(** So does [leadingFraction]. *)
Lemma leadingFraction_loop_rest s : forall x scale overflow f scale' s2,
  leadingFraction_loop s x scale overflow = (f, scale', s2) ->
  exists p, s = p +:+ s2 /\ all_digits p = true.
Proof.
  induction s as [| c r IH]; simpl; intros x scale overflow f scale' s2 Hs.
  - inversion Hs; subst. now exists "".
  - destruct ((byte_of c <? 48) || (byte_of c >? 57)) eqn:Hc.
    + inversion Hs; subst. now exists "".
    + assert (Hdig : is_digit c = true).
      { apply orb_false_elim in Hc as [Hlo Hhi]. apply is_digit_spec. lia. }
      assert (Hrec : exists x' scale'' overflow',
                 leadingFraction_loop r x' scale'' overflow' = (f, scale', s2)).
      { destruct overflow; [eauto |].
        destruct (x >? (2 ^ 63 - 1) / 10); [eauto |].
        destruct (wrap_uint64 (x * 10 + byte_of c - 48) >? 2 ^ 63); eauto. }
      destruct Hrec as (x' & scale'' & overflow' & Hrec).
      destruct (IH _ _ _ _ _ _ Hrec) as (p & -> & Hp).
      exists (String c p). split; [reflexivity |]. simpl. now rewrite Hp, Hdig.
Qed.

Lemma take_drop_unit s :
  s = str_take (unit_len s) s +:+ str_drop (unit_len s) s.
Proof.
  induction s as [| c r IH]; [reflexivity |].
  simpl. destruct (Ascii.eqb c "." || is_digit c); [reflexivity |].
  simpl. rewrite append_cons. now rewrite <- IH.
Qed.

Lemma length_take_unit s : String.length (str_take (unit_len s) s) = unit_len s.
Proof.
  induction s as [| c r IH]; [reflexivity |].
  simpl. destruct (Ascii.eqb c "." || is_digit c); [reflexivity |].
  simpl. now rewrite IH.
Qed.

Lemma ParseDuration_unit_shape orig v f scale s d d' s' :
  ParseDuration_unit orig v f scale s d = inl (d', s') ->
  exists u unit, s = u +:+ s' /\ unitMap !! u = Some unit /\ 0 <= d' <= 2 ^ 63.
Proof.
  unfold ParseDuration_unit.
  destruct (Nat.eqb _ 0); [discriminate |].
  destruct (unitMap !! _) as [unit |] eqn:Hunit; [| discriminate].
  destruct (v >? _); [discriminate |].
  destruct (_ && _); [discriminate |].
  match goal with
  | |- context [wrap_uint64 (d + ?x) >? _] => set (total := wrap_uint64 (d + x))
  end.
  destruct (Z.gtb_spec total (2 ^ 63)) as [| Hle]; [discriminate |].
  intros [= <- <-]. exists (str_take (unit_len s) s), unit.
  repeat split; auto using take_drop_unit. apply wrap_uint64_range.
Qed.

(** One turn consumes digits, possibly a point and digits, and a known unit;
    the total stays a [uint64]. *)
Lemma ParseDuration_step_shape orig s d d' s' :
  ParseDuration_step orig s d = inl (d', s') ->
  exists p u unit,
    s = p +:+ u +:+ s' /\ str_mem "/" p = false
    /\ unitMap !! u = Some unit /\ 0 <= d' <= 2 ^ 63.
Proof.
  unfold ParseDuration_step. destruct s as [| c r]; [discriminate |].
  destruct (negb _); [discriminate |].
  destruct (leadingInt (String c r)) as [[v s1] |] eqn:Hint; [| discriminate].
  apply leadingInt_loop_rest in Hint as (p1 & Hs & Hp1).
  assert (Hnumber : exists f scale s2 post p2,
    (let '(f, scale, s2, post) :=
       match s1 with
       | String "." s1' =>
           let '(f, scale, s2) := leadingFraction s1' in
           (f, scale, s2, negb (len s1' =? len s2))
       | _ => (0, float64_of_uint64 1, s1, false)
       end in
     if negb (negb (len (String c r) =? len s1)) && negb post
     then inr (ErrInvalidDuration orig)
     else ParseDuration_unit orig v f scale s2 d)
    = (if negb (negb (len (String c r) =? len s1)) && negb post
       then inr (ErrInvalidDuration orig)
       else ParseDuration_unit orig v f scale s2 d)
    /\ s1 = p2 +:+ s2 /\ str_mem "/" p2 = false).
  { destruct s1 as [| c1 s1']; [exists 0, (float64_of_uint64 1), "", false, ""; auto |].
    destruct (Ascii.eqb_spec c1 ".") as [-> | Hne].
    - destruct (leadingFraction s1') as [[f scale] s2] eqn:Hfr.
      apply leadingFraction_loop_rest in Hfr as (p2 & -> & Hp2).
      exists f, scale, s2, (negb (len (p2 +:+ s2) =? len s2)), (String "." p2).
      repeat split. simpl. now apply all_digits_no_byte.
    - exists 0, (float64_of_uint64 1), (String c1 s1'), false, "".
      repeat split.
      destruct c1 as [[] [] [] [] [] [] [] []]; try reflexivity. congruence. }
  destruct Hnumber as (f & scale & s2 & post & p2 & -> & Hs1 & Hp2).
  destruct (_ && negb post); [discriminate |].
  intros Hunit. apply ParseDuration_unit_shape in Hunit as (u & unit & Hs2 & Hu & Hd').
  exists (p1 +:+ p2), u, unit. repeat split; try tauto.
  - now rewrite Hs, Hs1, Hs2, append_assoc.
  - rewrite str_mem_app, Hp2, orb_false_r. now apply all_digits_no_byte.
Qed.

(** ** time.ParseDuration: the loop *)

Lemma ParseDuration_loop_turn orig k c r d :
  ParseDuration_loop (S k) orig (String c r) d
  = match ParseDuration_step orig (String c r) d with
    | inr e => Some (inr e)
    | inl (d', s') => ParseDuration_loop k orig s' d'
    end.
Proof. reflexivity. Qed.

(** A turn that succeeds leaves a shorter input. *)
Lemma ParseDuration_step_shorter orig s d d' s' :
  ParseDuration_step orig s d = inl (d', s') ->
  (String.length s' < String.length s)%nat.
Proof.
  intros Hstep. apply ParseDuration_step_shape in Hstep as (p & u & unit & -> & _ & Hu & _).
  apply unitMap_units in Hu as (_ & Hne & _).
  rewrite !length_append. destruct u; [congruence | simpl; lia].
Qed.

(** The loop ends within [String.length s] turns. *)
Lemma ParseDuration_loop_total orig fuel : forall s d,
  (String.length s <= fuel)%nat ->
  exists r, ParseDuration_loop fuel orig s d = Some r.
Proof.
  induction fuel as [| k IH]; intros s d Hlen.
  - destruct s; [simpl; eauto | simpl in Hlen; lia].
  - destruct s as [| c r]; [simpl; eauto |].
    rewrite ParseDuration_loop_turn.
    destruct (ParseDuration_step orig (String c r) d) as [[d' s'] | e] eqn:Hstep; [| eauto].
    apply ParseDuration_step_shorter in Hstep. apply IH. lia.
Qed.

(** So [time.ParseDuration] never runs out of turns. *)
Lemma ParseDuration_fuel orig s d :
  ParseDuration_loop (String.length s) orig s d <> None.
Proof.
  destruct (ParseDuration_loop_total orig (String.length s) s d) as [r Hr]; [lia |].
  rewrite Hr. discriminate.
Qed.

(** No input with a ['/'] gets through the loop. *)
Lemma ParseDuration_loop_slash orig fuel : forall s d d',
  str_mem "/" s = true -> ParseDuration_loop fuel orig s d <> Some (inl d').
Proof.
  induction fuel as [| k IH]; intros s d d' Hs.
  - destruct s; [discriminate | simpl; discriminate].
  - destruct s as [| c r]; [discriminate |].
    rewrite ParseDuration_loop_turn.
    destruct (ParseDuration_step orig (String c r) d) as [[d1 s1] | e] eqn:Hstep;
      [| discriminate].
    apply IH.
    apply ParseDuration_step_shape in Hstep as (p & u & unit & Heq & Hp & Hu & _).
    apply unitMap_units in Hu as (Hu & _ & _).
    rewrite Heq, !str_mem_app, Hp, Hu in Hs. exact Hs.
Qed.

(** The total the loop returns is a [uint64] of at most [1<<63]. *)
Lemma ParseDuration_loop_bound orig fuel : forall s d d',
  0 <= d <= 2 ^ 63 -> ParseDuration_loop fuel orig s d = Some (inl d') -> 0 <= d' <= 2 ^ 63.
Proof.
  induction fuel as [| k IH]; intros s d d' Hd.
  - destruct s; simpl; [intros [= <-]; exact Hd | discriminate].
  - destruct s as [| c r]; [simpl; intros [= <-]; exact Hd |].
    rewrite ParseDuration_loop_turn.
    destruct (ParseDuration_step orig (String c r) d) as [[d1 s1] | e] eqn:Hstep;
      [| discriminate].
    apply IH. now apply ParseDuration_step_shape in Hstep as (_ & _ & _ & _ & _ & _ & ?).
Qed.

(** [time.ParseDuration] fails on every text that has a ['/']. *)
Lemma ParseDuration_slash s :
  str_mem "/" s = true -> exists e, snd (time_ParseDuration s) = Some e.
Proof.
  intros Hs. unfold time_ParseDuration.
  set (s' := match s with
             | String c r => if Ascii.eqb c "-" || Ascii.eqb c "+" then r else s
             | EmptyString => s
             end).
  assert (Hs' : str_mem "/" s' = true).
  { subst s'. destruct s as [| c r]; [discriminate |].
    destruct (Ascii.eqb c "-" || Ascii.eqb c "+") eqn:Hsign; [| exact Hs].
    simpl in Hs. destruct (Ascii.eqb_spec c "/") as [-> | _]; [discriminate | exact Hs]. }
  case_decide as H0; [rewrite H0 in Hs'; discriminate |].
  case_decide as He; [simpl; eauto |].
  destruct (ParseDuration_loop _ s s' 0) as [[d | e] |] eqn:Hloop.
  - now apply ParseDuration_loop_slash in Hloop.
  - destruct e; simpl; eauto.
  - simpl; eauto.
Qed.

(** An interval that starts with a digit is never negative. *)
Lemma ParseDuration_digit_nonneg s d :
  first_is_digit s = true -> time_ParseDuration s = (d, None) -> 0 <= d.
Proof.
  intros Hdig. unfold time_ParseDuration.
  destruct s as [| c r]; [discriminate |]. simpl in Hdig.
  assert (Hminus : Ascii.eqb c "-" = false).
  { apply Ascii.eqb_neq. intros ->. discriminate. }
  assert (Hplus : Ascii.eqb c "+" = false).
  { apply Ascii.eqb_neq. intros ->. discriminate. }
  replace (match c with "-"%char => true | _ => false end) with false
    by (destruct c as [[] [] [] [] [] [] [] []]; try reflexivity; discriminate).
  rewrite Hminus, Hplus. simpl orb. cbv iota.
  case_decide; [intros [= <-]; lia |].
  case_decide; [discriminate |].
  destruct (ParseDuration_loop _ _ _ 0) as [[d0 | e] |] eqn:Hloop.
  - apply ParseDuration_loop_bound in Hloop; [| lia].
    destruct (Z.gtb_spec d0 (2 ^ 63 - 1)); [discriminate |].
    intros [= <-]. rewrite wrap_int64_small; [lia |].
    unfold in_int64, minInt64, maxInt64. lia.
  - destruct e; discriminate.
  - discriminate.
Qed.

(** ** The rate flag: the unit-only shorthand *)

(** An input with a second ['/'] is rejected: no duration has one. *)
Lemma RateFlag_Set_two_slashes f k a :
  str_mem "/" k = false -> str_mem "/" a = true ->
  exists e, RateFlag_Set f (k +:+ String "/" a) = (f, Some e).
Proof.
  intros Hk Ha.
  destruct (RateFlag_Set_cases f (k +:+ String "/" a))
    as [He | (before & after & burst & interval & Hcut & _ & _ & _ & Hdur & _)]; [exact He |].
  rewrite (Cut_byte_found "/" k a Hk) in Hcut. inversion Hcut; subst before after.
  destruct (ParseDuration_slash (if first_is_digit a then a else "1" +:+ a)) as [e He].
  - destruct (first_is_digit a); [exact Ha |].
    change ("1" +:+ a) with (String "1" a). simpl. exact Ha.
  - rewrite Hdur in He. discriminate.
Qed.

(** With a burst that has no ['/'] and is not empty, the unit-only interval
    [u] and ["1" + u] give the same call of [time.ParseDuration], hence the
    same result, error included. *)
Lemma RateFlag_Set_shorthand_same f b u :
  str_mem "/" b = false -> b <> "" -> u <> "" -> first_is_digit u = false ->
  RateFlag_Set f (b +:+ String "/" u) = RateFlag_Set f (b +:+ String "/" (String "1" u)).
Proof.
  intros Hb Hne Hu Hdigit. unfold RateFlag_Set.
  rewrite !(Cut_byte_found "/" b) by exact Hb. simpl negb.
  rewrite (bool_decide_eq_false_2 (b = "") Hne), (bool_decide_eq_false_2 (u = "") Hu).
  rewrite (bool_decide_eq_false_2 (String "1" u = "")) by discriminate.
  simpl orb. cbv iota. rewrite Hdigit. reflexivity.
Qed.

(** C3.  For every burst text [b] and every non-empty interval text [u] that
    does not start with a digit, [RateFlag.Set] does on ["{b}/{u}"] what it
    does on ["{b}/1{u}"]: both succeed or both fail, and the receiver is the
    same after both; ["10/s"] is parsed with an interval of one second. *)
Theorem RateFlag_Set_unit_shorthand (f : RateFlag) (b u : string) :
  u <> "" ->
  first_is_digit u = false ->
  fst (RateFlag_Set f (b +:+ "/" +:+ u)) = fst (RateFlag_Set f (b +:+ "/1" +:+ u))
  /\ (snd (RateFlag_Set f (b +:+ "/" +:+ u)) = None
      <-> snd (RateFlag_Set f (b +:+ "/1" +:+ u)) = None)
  /\ RateFlag_Set f "10/s" = ({| Burst := 10; Interval := 1 * Second |}, None).
Proof.
  intros Hu Hdigit.
  assert (Hsame :
    fst (RateFlag_Set f (b +:+ String "/" u))
    = fst (RateFlag_Set f (b +:+ String "/" (String "1" u)))
    /\ (snd (RateFlag_Set f (b +:+ String "/" u)) = None
        <-> snd (RateFlag_Set f (b +:+ String "/" (String "1" u))) = None)).
  { destruct (Cut_byte_cases "/" b) as [[Hb _] | (k & v & -> & Hk & _)].
    - destruct b as [| c b].
      + change ("" +:+ String "/" u) with (String "/" u).
        change ("" +:+ String "/" (String "1" u)) with (String "/" (String "1" u)).
        rewrite !RateFlag_Set_empty_burst. simpl. easy.
      + now rewrite (RateFlag_Set_shorthand_same f (String c b) u Hb).
    - rewrite !append_assoc, !append_cons.
      destruct (RateFlag_Set_two_slashes f k (v +:+ String "/" u) Hk) as [e ->];
        [rewrite str_mem_app; simpl; apply orb_true_r |].
      destruct (RateFlag_Set_two_slashes f k (v +:+ String "/" (String "1" u)) Hk)
        as [e1 ->]; [rewrite str_mem_app; simpl; apply orb_true_r |].
      simpl. easy. }
  split; [apply Hsame |]. split; [apply Hsame |]. vm_compute. reflexivity.
Qed.

Lemma RateFlag_Set_unit_shorthand_witness :
  let f := {| Burst := 0; Interval := 0 |} in
  ("ms" <> "" /\ first_is_digit "ms" = false)
  /\ fst (RateFlag_Set f "10/ms") = fst (RateFlag_Set f "10/1ms")
  /\ (snd (RateFlag_Set f "10/ms") = None <-> snd (RateFlag_Set f "10/1ms") = None)
  /\ RateFlag_Set f "10/s" = ({| Burst := 10; Interval := 1 * Second |}, None).
Proof.
  intros f. split; [split; [discriminate | reflexivity] |].
  apply (RateFlag_Set_unit_shorthand f "10" "ms"); [discriminate | reflexivity].
Defined.

(** The shorthand also turns a sign or a decimal point into part of a
    longer text: ["10/-1s"] is read as ["10/1-1s"]. *)
Example RateFlag_Set_shorthand_of_sign (f : RateFlag) :
  RateFlag_Set f "10/-1s" = RateFlag_Set f "10/1-1s"
  /\ RateFlag_Set f "10/.5s" = RateFlag_Set f "10/1.5s".
Proof. split; vm_compute; reflexivity. Qed.

(** X16.  The interval [RateFlag.Set] gives to [time.ParseDuration] always
    starts with a digit, so it is never negative: the error for a
    non-positive interval is only returned for the interval zero. *)
Lemma RateFlag_Set_NonPositive_is_zero f s after :
  snd (RateFlag_Set f s) = Some (NonPositiveInterval after) ->
  first_is_digit after = true /\ time_ParseDuration after = (0, None).
Proof.
  unfold RateFlag_Set.
  destruct (strings_Cut s "/") as [[before a] ok].
  destruct (negb ok || bool_decide (before = "") || bool_decide (a = "")); [discriminate |].
  destruct (strconv_Atoi before) as [burst [err |]]; [discriminate |].
  set (a' := if negb (first_is_digit a) then "1" +:+ a else a).
  assert (Hdigit : first_is_digit a' = true).
  { subst a'. destruct (first_is_digit a) eqn:Ha; [exact Ha | reflexivity]. }
  destruct (time_ParseDuration a') as [interval [err |]] eqn:Hdur; [discriminate |].
  pose proof (ParseDuration_digit_nonneg a' interval Hdigit Hdur) as Hnonneg.
  destruct (Z.leb_spec interval 0) as [Hle | _]; [| discriminate].
  simpl. intros [= <-]. split; [exact Hdigit |].
  rewrite Hdur. do 2 f_equal. lia.
Qed.

(** ** Flags and environment *)

Section Resolver.
Context `{NetURL}.

(** Every registered name has the value [init] gave it. *)
Lemma formal_flag_name (fv : FlagValue) : formal !! flag_name fv = Some fv.
Proof. destruct fv as [| | | | | | | | | []]; vm_compute; reflexivity. Qed.

Lemma formal_inv (name : string) (fv : FlagValue) :
  formal !! name = Some fv -> name = flag_name fv.
Proof.
  intros Hfv. unfold formal in Hfv. apply elem_of_list_to_map_2 in Hfv.
  unfold registrations, rewriteNames in Hfv. simpl in Hfv.
  repeat (apply elem_of_cons in Hfv as [Hfv | Hfv]; [now inversion Hfv |]).
  now apply elem_of_nil in Hfv.
Qed.

(** What a call of [Set] on a registered value does to the four fields
    that have an environment variable, error or not. *)
Lemma Value_Set_fields (fv : FlagValue) (c : Config) (value : string) :
  let c' := fst (Value_Set fv c value) in
  ServerURL c'
  = (if bool_decide (fv = server_func /\ value <> "") then url_Parse value else ServerURL c)
  /\ SecretToken c' = (if bool_decide (fv = secret_token_var) then value else SecretToken c)
  /\ APIKey c' = (if bool_decide (fv = api_key_var) then value else APIKey c)
  /\ Secure c'
     = (if bool_decide (fv = secure_var) then fst (strconv_ParseBool value) else Secure c).
Proof.
  destruct fv as [| | | | | | | | | r]; simpl;
    unfold server_Set, header_Set, set_bool, boolValue_Set;
    repeat case_bool_decide; try (intuition congruence);
    try (destruct (url_Parse value); simpl; now auto);
    try (destruct (strconv_ParseBool value) as [v [e |]]; try destruct r; simpl; now auto);
    try (destruct (strings_Cut value "=") as [[k v] []]; simpl; now auto);
    try (destruct (RateFlag_Set (EventRate c) value) as [f e]; simpl; now auto).
Qed.

(** The same for [flag.Set], by the name of the flag. *)
Lemma flag_Set_fields (c : Config) (name value : string) :
  let c' := fst (flag_Set c name value) in
  ServerURL c'
  = (if bool_decide (name = "server" /\ value <> "") then url_Parse value else ServerURL c)
  /\ SecretToken c' = (if bool_decide (name = "secret-token") then value else SecretToken c)
  /\ APIKey c' = (if bool_decide (name = "api-key") then value else APIKey c)
  /\ Secure c'
     = (if bool_decide (name = "secure") then fst (strconv_ParseBool value) else Secure c).
Proof.
  unfold flag_Set. destruct (formal !! name) as [fv |] eqn:Hfv.
  - apply formal_inv in Hfv as ->.
    pose proof (Value_Set_fields fv c value) as Hfields. simpl in Hfields.
    destruct Hfields as (-> & -> & -> & ->).
    destruct fv as [| | | | | | | | | []]; simpl flag_name;
      repeat split; repeat case_bool_decide; try reflexivity;
      exfalso; intuition (try discriminate; try congruence).
  - simpl.
    rewrite !bool_decide_eq_false_2; auto.
    all: try intros [-> _]; try intros ->; vm_compute in Hfv; discriminate.
Qed.

(** [flag.Parse]: on success each field holds the value of the last
    occurrence of its flag, or what it held before. *)
Lemma flag_Parse_fields (args : list (string * string)) : forall (c c' : Config),
  flag_Parse c args = (c', None) ->
  ServerURL c'
  = match last_nonempty_value "server" args with
    | Some v => url_Parse v
    | None => ServerURL c
    end
  /\ SecretToken c' = default (SecretToken c) (last_value "secret-token" args)
  /\ APIKey c' = default (APIKey c) (last_value "api-key" args)
  /\ Secure c'
     = match last_value "secure" args with
       | Some v => fst (strconv_ParseBool v)
       | None => Secure c
       end.
Proof.
  induction args as [| [n v] rest IH]; intros c c' Hparse.
  - simpl in Hparse. inversion Hparse; subst. simpl. auto.
  - simpl in Hparse.
    pose proof (flag_Set_fields c n v) as Hset.
    destruct (flag_Set c n v) as [c1 [e |]]; [discriminate |].
    destruct (IH c1 c' Hparse) as (-> & -> & -> & ->).
    simpl in Hset. destruct Hset as (-> & -> & -> & ->). simpl.
    repeat split.
    + destruct (last_nonempty_value "server" rest); [reflexivity |].
      now case_bool_decide.
    + destruct (last_value "secret-token" rest); [reflexivity |].
      now case_bool_decide.
    + destruct (last_value "api-key" rest); [reflexivity |].
      now case_bool_decide.
    + destruct (last_value "secure" rest); [reflexivity |].
      now case_bool_decide.
Qed.

Lemma getEnvOrDefault_nonempty (env : gmap string string) (name d : string) :
  d <> "" -> getEnvOrDefault env name d <> "".
Proof. intros Hd. unfold getEnvOrDefault. now case_bool_decide. Qed.

Lemma getEnvOrDefault_set (env : gmap string string) (name d v : string) :
  env !! name = Some v -> v <> "" -> getEnvOrDefault env name d = v.
Proof.
  intros Hv Hne. unfold getEnvOrDefault, os_Getenv. rewrite Hv. simpl.
  now rewrite bool_decide_eq_true_2.
Qed.


(** One turn of the loop of [setFlagsFromEnv]. *)
Lemma setFlagFromEnv_fields (env : gmap string string) (c : Config) (k : string) :
  let c' := setFlagFromEnv env c k in
  ServerURL c'
  = (if bool_decide (k = "server")
     then url_Parse (getEnvOrDefault env "ELASTIC_APM_SERVER_URL" "http://127.0.0.1:8200")
     else ServerURL c)
  /\ SecretToken c'
     = (if bool_decide (k = "secret-token")
        then getEnvOrDefault env "ELASTIC_APM_SECRET_TOKEN" ""
        else SecretToken c)
  /\ APIKey c'
     = (if bool_decide (k = "api-key")
        then getEnvOrDefault env "ELASTIC_APM_API_KEY" ""
        else APIKey c)
  /\ Secure c'
     = (if bool_decide (k = "secure")
        then fst (strconv_ParseBool
                    (getEnvOrDefault env "ELASTIC_APM_VERIFY_SERVER_CERT" "false"))
        else Secure c).
Proof.
  unfold setFlagFromEnv. destruct (flagEnvMap !! k) as [[name d] |] eqn:Hk.
  - pose proof (flag_Set_fields c k (getEnvOrDefault env name d)) as Hset.
    simpl in Hset. destruct Hset as (-> & -> & -> & ->).
    pose proof (getEnvOrDefault_nonempty env "ELASTIC_APM_SERVER_URL"
                  "http://127.0.0.1:8200" ltac:(discriminate)) as Hserver.
    unfold flagEnvMap in Hk. apply elem_of_list_to_map_2 in Hk.
    unfold flagEnvList in Hk.
    repeat (apply elem_of_cons in Hk as [Hk | Hk];
            [inversion Hk; subst; repeat split; repeat case_bool_decide;
             try reflexivity; exfalso;
             intuition (try discriminate; try congruence) |]).
    now apply elem_of_nil in Hk.
  - rewrite !bool_decide_eq_false_2; auto.
    all: intros ->; vm_compute in Hk; discriminate.
Qed.

(** [setFlagsFromEnv], in whatever order the map is ranged over. *)
Lemma setFlagsFromEnv_fields (env : gmap string string) (order : list string) :
  forall c : Config,
  let c' := setFlagsFromEnv order env c in
  ServerURL c'
  = (if bool_decide ("server" ∈ order)
     then url_Parse (getEnvOrDefault env "ELASTIC_APM_SERVER_URL" "http://127.0.0.1:8200")
     else ServerURL c)
  /\ SecretToken c'
     = (if bool_decide ("secret-token" ∈ order)
        then getEnvOrDefault env "ELASTIC_APM_SECRET_TOKEN" ""
        else SecretToken c)
  /\ APIKey c'
     = (if bool_decide ("api-key" ∈ order)
        then getEnvOrDefault env "ELASTIC_APM_API_KEY" ""
        else APIKey c)
  /\ Secure c'
     = (if bool_decide ("secure" ∈ order)
        then fst (strconv_ParseBool
                    (getEnvOrDefault env "ELASTIC_APM_VERIFY_SERVER_CERT" "false"))
        else Secure c).
Proof.
  unfold setFlagsFromEnv. induction order as [| k rest IH]; intros c.
  - simpl. repeat split; try case_bool_decide as Hin; try reflexivity;
      now apply not_elem_of_nil in Hin.
  - simpl foldl. destruct (IH (setFlagFromEnv env c k)) as (-> & -> & -> & ->).
    destruct (setFlagFromEnv_fields env c k) as (-> & -> & -> & ->).
    repeat split; repeat case_bool_decide; try reflexivity; exfalso;
      match goal with
      | Hin : _ ∈ _ :: _ |- _ => apply elem_of_cons in Hin as [Hin | Hin]; auto
      | Hnin : ¬ (_ ∈ _ :: _) |- _ => apply Hnin; subst; (left || (right; assumption))
      end.
Qed.
End Resolver.

(** ** The seeding of the flags from the environment *)

Section InitOrder.
Context `{NetURL}.

Lemma setFlagFromEnv_server (env : gmap string string) (c : Config) :
  setFlagFromEnv env c "server"
  = set_ServerURL
      (url_Parse (getEnvOrDefault env "ELASTIC_APM_SERVER_URL" "http://127.0.0.1:8200")) c.
Proof.
  pose proof (formal_flag_name server_func) as Hformal. simpl flag_name in Hformal.
  assert (Henv : flagEnvMap !! "server"
                 = Some ("ELASTIC_APM_SERVER_URL", "http://127.0.0.1:8200"))
    by (vm_compute; reflexivity).
  unfold setFlagFromEnv, flag_Set. rewrite Henv, Hformal. simpl. unfold server_Set.
  rewrite bool_decide_eq_true_2 by (now apply getEnvOrDefault_nonempty).
  now destruct (url_Parse _).
Qed.

Lemma setFlagFromEnv_secret_token (env : gmap string string) (c : Config) :
  setFlagFromEnv env c "secret-token"
  = set_SecretToken (getEnvOrDefault env "ELASTIC_APM_SECRET_TOKEN" "") c.
Proof. reflexivity. Qed.

Lemma setFlagFromEnv_api_key (env : gmap string string) (c : Config) :
  setFlagFromEnv env c "api-key"
  = set_APIKey (getEnvOrDefault env "ELASTIC_APM_API_KEY" "") c.
Proof. reflexivity. Qed.

Lemma setFlagFromEnv_secure (env : gmap string string) (c : Config) :
  setFlagFromEnv env c "secure"
  = set_Secure
      (fst (strconv_ParseBool (getEnvOrDefault env "ELASTIC_APM_VERIFY_SERVER_CERT" "false")))
      c.
Proof.
  pose proof (formal_flag_name secure_var) as Hformal. simpl flag_name in Hformal.
  assert (Henv : flagEnvMap !! "secure" = Some ("ELASTIC_APM_VERIFY_SERVER_CERT", "false"))
    by (vm_compute; reflexivity).
  unfold setFlagFromEnv, flag_Set. rewrite Henv, Hformal. simpl.
  unfold set_bool, boolValue_Set. now destruct (strconv_ParseBool _) as [v [e |]].
Qed.

(** A turn of the loop of [setFlagsFromEnv] assigns at most one field, with
    a value that depends on the environment only. *)
Lemma setFlagFromEnv_cases (env : gmap string string) (k : string) :
  (forall c, setFlagFromEnv env c k = c)
  \/ k = "server" \/ k = "secret-token" \/ k = "api-key" \/ k = "secure".
Proof.
  destruct (flagEnvMap !! k) as [[name d] |] eqn:Hk.
  - right. unfold flagEnvMap in Hk. apply elem_of_list_to_map_2 in Hk.
    unfold flagEnvList in Hk.
    repeat (apply elem_of_cons in Hk as [Hk | Hk]; [inversion Hk; subst; tauto |]).
    now apply elem_of_nil in Hk.
  - left. intros c. unfold setFlagFromEnv. now rewrite Hk.
Qed.

(** Two turns can be exchanged. *)
Lemma setFlagFromEnv_comm (env : gmap string string) (c : Config) (k1 k2 : string) :
  setFlagFromEnv env (setFlagFromEnv env c k1) k2
  = setFlagFromEnv env (setFlagFromEnv env c k2) k1.
Proof.
  destruct (setFlagFromEnv_cases env k1) as [H1 | [-> | [-> | [-> | ->]]]];
    destruct (setFlagFromEnv_cases env k2) as [H2 | [-> | [-> | [-> | ->]]]];
    rewrite ?H1, ?H2, ?setFlagFromEnv_server, ?setFlagFromEnv_secret_token,
      ?setFlagFromEnv_api_key, ?setFlagFromEnv_secure; reflexivity.
Qed.

(** The result of [setFlagsFromEnv] does not depend on the order in which
    Go ranges over [flagEnvMap]. *)
Lemma setFlagsFromEnv_order (env : gmap string string) (order order' : list string) :
  order ≡ₚ order' ->
  forall c : Config, setFlagsFromEnv order env c = setFlagsFromEnv order' env c.
Proof.
  unfold setFlagsFromEnv. induction 1 as [| k l l' _ IH | k1 k2 l | l1 l2 l3 _ IH1 _ IH2];
    intros c; simpl.
  - reflexivity.
  - apply IH.
  - now rewrite setFlagFromEnv_comm.
  - now rewrite IH1.
Qed.

(** X15.  [init] gives the zero configuration with four fields assigned,
    each from its environment variable when that is set and not empty and
    from its default otherwise: the URL that [url.Parse] returns for the
    server, the two credentials as they are, and the boolean of
    [strconv.ParseBool] for the TLS verification.  The event rate, the
    headers and every toggle are left at zero. *)
Lemma init_value (env : gmap string string) (order : list string) :
  order ≡ₚ flagEnvKeys ->
  init order env
  = set_Secure
      (fst (strconv_ParseBool (getEnvOrDefault env "ELASTIC_APM_VERIFY_SERVER_CERT" "false")))
      (set_APIKey (getEnvOrDefault env "ELASTIC_APM_API_KEY" "")
         (set_SecretToken (getEnvOrDefault env "ELASTIC_APM_SECRET_TOKEN" "")
            (set_ServerURL
               (url_Parse (getEnvOrDefault env "ELASTIC_APM_SERVER_URL"
                             "http://127.0.0.1:8200"))
               Config_zero))).
Proof.
  intros Horder. unfold init. rewrite (setFlagsFromEnv_order env _ _ Horder).
  unfold setFlagsFromEnv, flagEnvKeys. simpl foldl.
  now rewrite setFlagFromEnv_server, setFlagFromEnv_secret_token,
    setFlagFromEnv_api_key, setFlagFromEnv_secure.
Qed.
End InitOrder.

(** ** The resolved configuration *)


Section Resolve.
Context `{NetURL}.

(** The four fields after [init] and [flag.Parse]. *)
Lemma resolve_fields (order : list string) (env : gmap string string)
    (args : list (string * string)) (c : Config) :
  order ≡ₚ flagEnvKeys ->
  resolve order env args = (c, None) ->
  ServerURL c
  = url_Parse (default (getEnvOrDefault env "ELASTIC_APM_SERVER_URL" "http://127.0.0.1:8200")
                 (last_nonempty_value "server" args))
  /\ SecretToken c
     = default (getEnvOrDefault env "ELASTIC_APM_SECRET_TOKEN" "")
         (last_value "secret-token" args)
  /\ APIKey c
     = default (getEnvOrDefault env "ELASTIC_APM_API_KEY" "") (last_value "api-key" args)
  /\ Secure c
     = fst (strconv_ParseBool
              (default (getEnvOrDefault env "ELASTIC_APM_VERIFY_SERVER_CERT" "false")
                 (last_value "secure" args))).
Proof.
  intros Horder Hresolve. unfold resolve, init in Hresolve.
  apply flag_Parse_fields in Hresolve as (-> & -> & -> & ->).
  destruct (setFlagsFromEnv_fields env order Config_zero) as (-> & -> & -> & ->).
  assert (Hin : forall k, k ∈ flagEnvKeys -> k ∈ order) by (intros k; now rewrite Horder).
  rewrite !bool_decide_eq_true_2 by (apply Hin; unfold flagEnvKeys; set_solver).
  repeat split.
  - now destruct (last_nonempty_value "server" args).
  - now destruct (last_value "secure" args).
Qed.


(** Initialization with no argument always succeeds. *)
Lemma resolve_no_args (order : list string) (env : gmap string string) :
  resolve order env [] = (init order env, None).
Proof. reflexivity. Qed.

(** C9, at its failing input: [ELASTIC_APM_VERIFY_SERVER_CERT=yes] is not a
    boolean and [flag.Set] says so, but [setFlagsFromEnv] drops the error:
    initialization succeeds with [Secure] false, in whatever order the
    flags are seeded, while the same value given as [-secure=yes] ends the
    run with the error. *)
Theorem env_parse_failure_is_dropped (order : list string) :
  let env : gmap string string := {[ "ELASTIC_APM_VERIFY_SERVER_CERT" := "yes" ]} in
  getEnvOrDefault env "ELASTIC_APM_VERIFY_SERVER_CERT" "false" = "yes"
  /\ snd (flag_Set Config_zero "secure" "yes") = Some ErrParse
  /\ snd (resolve order env []) = None
  /\ Secure (fst (resolve order env [])) = false
  /\ snd (resolve order ∅ [("secure", "yes")]) = Some ErrParse.
Proof.
  intros env. split; [reflexivity |]. split; [reflexivity |].
  split; [reflexivity |]. split.
  - rewrite resolve_no_args. simpl fst. unfold init.
    destruct (setFlagsFromEnv_fields env order Config_zero) as (_ & _ & _ & ->).
    now case_bool_decide.
  - unfold resolve. generalize (init order ∅). intros c. reflexivity.
Qed.

(** The same with the server: a URL that [url.Parse] rejects leaves a nil
    [ServerURL], and initialization goes on. *)
Lemma env_bad_url_is_dropped (order : list string) (env : gmap string string) (v : string) :
  order ≡ₚ flagEnvKeys ->
  env !! "ELASTIC_APM_SERVER_URL" = Some v -> v <> "" -> url_Parse v = None ->
  resolve order env [] = (init order env, None) /\ ServerURL (init order env) = None.
Proof.
  intros Horder Henv Hv Hparse. split; [reflexivity |].
  destruct (resolve_fields order env [] _ Horder (resolve_no_args order env)) as (-> & _).
  simpl. now rewrite (getEnvOrDefault_set env _ _ v Henv Hv).
Qed.
End Resolve.



(** The resolved configuration of a run with no argument and no variable. *)
Example resolve_defaults :
  @resolve TextURL flagEnvKeys ∅ []
  = (@set_ServerURL TextURL (Some "http://127.0.0.1:8200") Config_zero, None).
Proof. vm_compute. reflexivity. Qed.

(** ** The rate flag: further properties *)

(** What [RateFlag.Set] returns depends on its argument only: a rate on
    success, an error on failure, whatever the receiver holds. *)
Lemma RateFlag_Set_result s :
  exists r : RateFlag + RateError,
    forall f, RateFlag_Set f s = match r with
                                 | inl g => (g, None)
                                 | inr e => (f, Some e)
                                 end.
Proof.
  unfold RateFlag_Set.
  destruct (strings_Cut s "/") as [[before after] ok].
  destruct (negb ok || bool_decide (before = "") || bool_decide (after = ""));
    [now exists (inr (InvalidFormat s)) |].
  destruct (strconv_Atoi before) as [burst [err |]];
    [now exists (inr (InvalidBurst before err)) |].
  set (a := if negb (first_is_digit after) then "1" +:+ after else after).
  destruct (time_ParseDuration a) as [interval [err |]];
    [now exists (inr (InvalidInterval a err)) |].
  destruct (interval <=? 0); [now exists (inr (NonPositiveInterval a)) |].
  now exists (inl {| Burst := burst; Interval := interval |}).
Qed.

(** X1.  Of two calls of [RateFlag.Set] on the same receiver, the later one
    decides.  If its argument is valid, the receiver holds the rate that
    argument denotes, the burst [strconv.Atoi] returns for the text before
    its first ['/'] and the duration [time.ParseDuration] returns for the
    text after it (with ["1"] in front when it does not start with a digit),
    with nothing left of the earlier call.  If it is not, the receiver keeps
    what the earlier call left and the later error is returned. *)
Theorem RateFlag_Set_twice (f : RateFlag) (s1 s2 : string) :
  let before := fst (fst (strings_Cut s2 "/")) in
  let after := snd (fst (strings_Cut s2 "/")) in
  let interval := if first_is_digit after then after else "1" +:+ after in
  (snd (RateFlag_Set f s2) = None ->
   snd (strconv_Atoi before) = None
   /\ snd (time_ParseDuration interval) = None
   /\ RateFlag_Set (fst (RateFlag_Set f s1)) s2
      = ({| Burst := fst (strconv_Atoi before);
            Interval := fst (time_ParseDuration interval) |}, None))
  /\ (forall e, snd (RateFlag_Set f s2) = Some e ->
        RateFlag_Set (fst (RateFlag_Set f s1)) s2 = (fst (RateFlag_Set f s1), Some e)).
Proof.
  intros before after interval. subst before after interval. split.
  - intros Hok.
    destruct (RateFlag_Set_result s2) as [[g | e2] Hs2]; rewrite Hs2 in Hok;
      [| discriminate].
    rewrite Hs2.
    destruct (RateFlag_Set_cases f s2)
      as [[e He] | (b & a & n & i & Hcut & _ & _ & Hatoi & Hdur & _ & Hset)].
    + rewrite Hs2 in He. discriminate.
    + rewrite Hs2 in Hset. inversion Hset; subst g.
      rewrite Hcut. simpl. now rewrite Hatoi, Hdur.
  - destruct (RateFlag_Set_result s2) as [[g | e2] Hs2]; rewrite !Hs2; simpl.
    + discriminate.
    + now intros e [= ->].
Qed.

Lemma RateFlag_Set_twice_witness :
  let f := {| Burst := 0; Interval := 0 |} in
  (snd (RateFlag_Set f "7/ms") = None
   /\ RateFlag_Set (fst (RateFlag_Set f "200/5s")) "7/ms"
      = ({| Burst := 7; Interval := Millisecond |}, None))
  /\ (snd (RateFlag_Set f "7") = Some (InvalidFormat "7")
      /\ RateFlag_Set (fst (RateFlag_Set f "200/5s")) "7"
         = ({| Burst := 200; Interval := 5 * Second |}, Some (InvalidFormat "7"))).
Proof.
  intros f.
  destruct (RateFlag_Set_twice f "200/5s" "7/ms") as [Hvalid _].
  destruct (RateFlag_Set_twice f "200/5s" "7") as [_ Hinvalid].
  split; (split; [reflexivity |]).
  - destruct (Hvalid eq_refl) as (_ & _ & ->). vm_compute. reflexivity.
  - rewrite (Hinvalid (InvalidFormat "7") eq_refl). vm_compute. reflexivity.
Defined.

(** X2.  [RateFlag.Set] rejects every input that has more than one ['/'],
    whatever stands around them, and leaves the receiver as it was. *)
Theorem RateFlag_Set_rejects_second_slash (f : RateFlag) (s1 s2 s3 : string) :
  exists e, RateFlag_Set f (s1 +:+ "/" +:+ s2 +:+ "/" +:+ s3) = (f, Some e).
Proof.
  change (s1 +:+ "/" +:+ s2 +:+ "/" +:+ s3) with (s1 +:+ String "/" (s2 +:+ String "/" s3)).
  destruct (Cut_byte_cases "/" s1) as [[Hs1 _] | (k & v & -> & Hk & _)].
  - apply RateFlag_Set_two_slashes; [exact Hs1 |].
    rewrite str_mem_app. simpl. apply orb_true_r.
  - rewrite append_assoc, append_cons.
    apply RateFlag_Set_two_slashes; [exact Hk |].
    rewrite str_mem_app. simpl. apply orb_true_r.
Qed.

(** X3.  [RateFlag.Set] returns its format error exactly on the inputs
    that have no ['/'], that start with ['/'] (no burst), or whose only
    ['/'] is their last byte (no interval); the message carries the input. *)
Theorem RateFlag_Set_InvalidFormat_iff (f : RateFlag) (s s' : string) :
  snd (RateFlag_Set f s) = Some (InvalidFormat s')
  <-> s' = s
      /\ (str_mem "/" s = false
          \/ (exists after, s = "/" +:+ after)
          \/ (exists before, s = before +:+ "/" /\ str_mem "/" before = false)).
Proof.
  split.
  - unfold RateFlag_Set.
    destruct (Cut_byte_cases "/" s) as [[Hs ->] | (k & v & Heq & Hk & ->)].
    + simpl. intros [= <-]. auto.
    + simpl negb. simpl orb at 1.
      case_bool_decide as Hk0.
      { simpl. intros [= <-]. split; [reflexivity |]. right; left.
        exists v. now rewrite Heq, Hk0. }
      case_bool_decide as Hv0.
      { simpl. intros [= <-]. split; [reflexivity |]. right; right.
        exists k. now rewrite Heq, Hv0. }
      simpl orb. cbv iota.
      destruct (strconv_Atoi k) as [burst [err |]]; [discriminate |].
      destruct (time_ParseDuration _) as [interval [err |]]; [discriminate |].
      destruct (interval <=? 0); discriminate.
  - intros [-> [Hs | [[after ->] | (before & -> & Hb)]]].
    + unfold RateFlag_Set. now rewrite (Cut_byte_none "/" s Hs).
    + change ("/" +:+ after) with (String "/" after).
      now rewrite RateFlag_Set_empty_burst.
    + unfold RateFlag_Set. change (before +:+ "/") with (before +:+ String "/" "").
      rewrite (Cut_byte_found "/" before "" Hb). simpl negb.
      rewrite (bool_decide_eq_true_2 ("" = "") eq_refl). now rewrite orb_true_r.
Qed.

(** ** strconv.Atoi on signs, digits and numbers out of range *)

Lemma Atoi_loop_all_digits s : forall n m, Atoi_loop s n = Some m -> all_digits s = true.
Proof.
  induction s as [| c r IH]; simpl; intros n m Hm; [reflexivity |].
  destruct (Z.gtb_spec (wrap_byte (byte_of c - 48)) 9) as [| Hle]; [discriminate |].
  rewrite (IH _ _ Hm), andb_true_r. apply is_digit_spec.
  pose proof (byte_of_range c) as Hc. unfold wrap_byte in Hle.
  destruct (Z_lt_le_dec (byte_of c) 48) as [Hlt | Hge].
  - replace ((byte_of c - 48) mod 256) with (byte_of c + 208) in Hle; [lia |].
    apply Z.mod_unique with (q := -1); lia.
  - rewrite Z.mod_small in Hle by lia. lia.
Qed.

Lemma ParseUint_loop_all_digits s : forall n m,
  ParseUint_loop s n = (m, None) -> all_digits s = true.
Proof.
  induction s as [| c r IH]; simpl; intros n m Hm; [reflexivity |].
  destruct (is_digit c); [| discriminate].
  destruct (n >=? _); [discriminate |].
  destruct (_ || _); [discriminate |]. simpl. eauto.
Qed.

Lemma ParseUint_loop_range_error s : forall n m,
  ParseUint_loop s n = (m, Some ErrRange) -> m = maxUint64.
Proof.
  induction s as [| c r IH]; simpl; intros n m Hm; [discriminate |].
  destruct (is_digit c); [| discriminate].
  destruct (n >=? _); [now inversion Hm |].
  destruct (_ || _); [now inversion Hm |]. eauto.
Qed.

(** A text [strconv.Atoi] accepts is a string of digits, after a sign or
    not; it has no ['/'] and is not empty. *)
Lemma Atoi_ok_shape b n :
  strconv_Atoi b = (n, None) -> str_mem "/" b = false /\ b <> "".
Proof.
  destruct b as [| c r]; [intros Hb; vm_compute in Hb; discriminate |].
  intros Hb. split; [| discriminate].
  assert (Hdigits : all_digits (if Ascii.eqb c "+" || Ascii.eqb c "-" then r else String c r)
                    = true).
  { revert Hb. unfold strconv_Atoi.
    destruct ((0 <? len (String c r)) && (len (String c r) <? 19)).
    - rewrite (orb_comm (Ascii.eqb c "-")).
      destruct (_ && (len _ <? 1)); [discriminate |].
      destruct (Atoi_loop _ 0) as [m |] eqn:Hloop; [| discriminate].
      intros _. exact (Atoi_loop_all_digits _ _ _ Hloop).
    - unfold strconv_ParseInt.
      destruct (strconv_ParseUint _) as [un [[] |]] eqn:Hun; try discriminate.
      + assert (un = maxUint64) as ->.
        { unfold strconv_ParseUint in Hun.
          destruct (if Ascii.eqb c "+" || Ascii.eqb c "-" then r else String c r);
            [discriminate |].
          exact (ParseUint_loop_range_error _ _ _ Hun). }
        destruct (Ascii.eqb c "-"); simpl; discriminate.
      + intros _. unfold strconv_ParseUint in Hun.
        destruct (if Ascii.eqb c "+" || Ascii.eqb c "-" then r else String c r) eqn:Hs;
          [discriminate |].
        exact (ParseUint_loop_all_digits _ _ _ Hun). }
  destruct (Ascii.eqb c "+" || Ascii.eqb c "-") eqn:Hsign.
  - simpl. rewrite (all_digits_no_byte "/" r eq_refl Hdigits), orb_false_r.
    apply Ascii.eqb_neq. intros ->. discriminate.
  - now apply all_digits_no_byte.
Qed.

(** A string of [k] digits denotes a number below [10^k]. *)
Lemma decimal_value_lt s : forall n,
  all_digits s = true -> 0 <= n ->
  decimal_value s n < (n + 1) * 10 ^ Z.of_nat (String.length s).
Proof.
  induction s as [| c r IH]; intros n Hs Hn.
  - simpl. lia.
  - simpl in Hs. apply andb_true_iff in Hs as [Hc Hr]. apply is_digit_spec in Hc.
    simpl decimal_value. simpl String.length. rewrite Nat2Z.inj_succ, Z.pow_succ_r by lia.
    specialize (IH (n * 10 + (byte_of c - 48)) Hr ltac:(lia)).
    assert (0 < 10 ^ Z.of_nat (String.length r)) by (apply Z.pow_pos_nonneg; lia).
    nia.
Qed.

(** [strconv.ParseUint] on digits: the number, or the range error. *)
Lemma ParseUint_loop_spec s : forall n,
  all_digits s = true -> 0 <= n <= maxUint64 ->
  ParseUint_loop s n
  = if decimal_value s n <=? maxUint64 then (decimal_value s n, None)
    else (maxUint64, Some ErrRange).
Proof.
  induction s as [| c r IH]; simpl; intros n Hs Hn.
  - destruct (Z.leb_spec n maxUint64); [reflexivity | lia].
  - apply andb_true_iff in Hs as [Hc Hr]. rewrite Hc. apply is_digit_spec in Hc.
    pose proof (decimal_value_ge r (n * 10 + (byte_of c - 48)) Hr ltac:(lia)) as Hge.
    unfold maxUint64 in *. change ((2 ^ 64 - 1) / 10 + 1) with 1844674407370955162.
    destruct (Z.geb_spec n 1844674407370955162) as [Hcut | Hcut].
    { destruct (Z.leb_spec (decimal_value r (n * 10 + (byte_of c - 48))) (2 ^ 64 - 1));
        [lia | reflexivity]. }
    rewrite (wrap_uint64_small (n * 10)) by lia.
    destruct (Z_le_gt_dec (n * 10 + (byte_of c - 48)) (2 ^ 64 - 1)) as [Hfit | Hover].
    + rewrite (wrap_uint64_small (n * 10 + _)) by lia.
      destruct (Z.ltb_spec (n * 10 + (byte_of c - 48)) (n * 10)) as [? | _]; [lia |].
      destruct (Z.gtb_spec (n * 10 + (byte_of c - 48)) (2 ^ 64 - 1)) as [? | _]; [lia |].
      simpl. apply IH; [exact Hr | lia].
    + assert (Hwrap : wrap_uint64 (n * 10 + (byte_of c - 48))
                      = n * 10 + (byte_of c - 48) - 2 ^ 64).
      { unfold wrap_uint64. symmetry. apply Z.mod_unique with (q := 1); lia. }
      rewrite Hwrap.
      destruct (Z.ltb_spec (n * 10 + (byte_of c - 48) - 2 ^ 64) (n * 10)) as [_ | ?]; [| lia].
      simpl.
      destruct (Z.leb_spec (decimal_value r (n * 10 + (byte_of c - 48))) (2 ^ 64 - 1));
        [lia | reflexivity].
Qed.

(** [strconv.Atoi] on a non-empty string of digits: the number it denotes
    if that is an [int], the range error with the largest [int] if not. *)
Lemma Atoi_digits_spec s :
  all_digits s = true -> s <> "" ->
  strconv_Atoi s
  = if decimal_value s 0 <=? maxInt64 then (decimal_value s 0, None)
    else (maxInt64, Some ErrRange).
Proof.
  intros Hs Hne.
  destruct (Z.leb_spec (decimal_value s 0) maxInt64) as [Hfit | Hover];
    [now apply Atoi_digits |].
  unfold strconv_Atoi.
  destruct ((0 <? len s) && (len s <? 19)) eqn:Hlen.
  - exfalso. apply andb_true_iff in Hlen as [_ Hlen]. apply Z.ltb_lt in Hlen.
    pose proof (decimal_value_lt s 0 Hs ltac:(lia)) as Hlt. unfold len in Hlen.
    assert (10 ^ Z.of_nat (String.length s) <= 10 ^ 18)
      by (apply Z.pow_le_mono_r; lia).
    unfold maxInt64 in Hover. lia.
  - destruct s as [| c r]; [congruence |].
    assert (Hc : is_digit c = true) by (simpl in Hs; now apply andb_true_iff in Hs as [? _]).
    assert (Hminus : Ascii.eqb c "-" = false).
    { apply Ascii.eqb_neq. intros ->. discriminate. }
    assert (Hplus : Ascii.eqb c "+" = false).
    { apply Ascii.eqb_neq. intros ->. discriminate. }
    unfold strconv_ParseInt, strconv_ParseUint. rewrite Hminus, Hplus. simpl orb. cbv iota.
    rewrite (ParseUint_loop_spec (String c r) 0 Hs) by (unfold maxUint64; lia).
    unfold maxInt64, maxUint64 in *.
    destruct (Z.leb_spec (decimal_value (String c r) 0) (2 ^ 64 - 1)).
    + simpl negb.
      destruct (Z.geb_spec (decimal_value (String c r) 0) (2 ^ 63)) as [_ | ?]; [| lia].
      reflexivity.
    + reflexivity.
Qed.

(** The same after a minus sign. *)
Lemma Atoi_minus_digits s :
  all_digits s = true -> s <> "" -> decimal_value s 0 <= 2 ^ 63 ->
  strconv_Atoi (String "-" s) = (- decimal_value s 0, None).
Proof.
  intros Hs Hne Hfit.
  pose proof (decimal_value_ge s 0 Hs ltac:(lia)) as Hge.
  unfold strconv_Atoi.
  destruct ((0 <? len (String "-" s)) && (len (String "-" s) <? 19)) eqn:Hlen.
  - apply andb_true_iff in Hlen as [_ Hlen]. apply Z.ltb_lt in Hlen.
    unfold len in Hlen. simpl String.length in Hlen.
    pose proof (decimal_value_lt s 0 Hs ltac:(lia)) as Hlt.
    assert (10 ^ Z.of_nat (String.length s) <= 10 ^ 17)
      by (apply Z.pow_le_mono_r; lia).
    simpl Ascii.eqb. simpl orb. cbv iota.
    destruct (Z.ltb_spec (len s) 1) as [Hshort | _].
    { destruct s; [congruence |]. unfold len in Hshort. simpl in Hshort. lia. }
    simpl andb. cbv iota.
    rewrite (Atoi_loop_digits s 0 Hs) by (unfold maxInt64; lia).
    now rewrite wrap_int64_small by (unfold in_int64, minInt64, maxInt64; lia).
  - unfold strconv_ParseInt, strconv_ParseUint. simpl Ascii.eqb. simpl orb. cbv iota.
    destruct s as [| c r]; [congruence |].
    rewrite (ParseUint_loop_spec (String c r) 0 Hs) by (unfold maxUint64; lia).
    remember (decimal_value (String c r) 0) as dv eqn:Hdv. clear Hdv.
    unfold maxUint64.
    destruct (Z.leb_spec dv (2 ^ 64 - 1)) as [_ | ?]; [| lia].
    simpl negb. simpl andb. cbv iota.
    destruct (Z.gtb_spec dv (2 ^ 63)) as [? | _]; [lia |].
    f_equal.
    destruct (Z.eq_dec dv (2 ^ 63)) as [Heq63 | Hne63].
    { rewrite Heq63. reflexivity. }
    rewrite (wrap_int64_small dv) by (unfold in_int64, minInt64, maxInt64; lia).
    now rewrite wrap_int64_small by (unfold in_int64, minInt64, maxInt64; lia).
Qed.

(** [strconv.Atoi] reads back what [%d] prints for every [int]. *)
Lemma Atoi_fmt_d_int n : in_int64 n -> strconv_Atoi (fmt_d n) = (n, None).
Proof.
  unfold in_int64, minInt64, maxInt64. intros Hn.
  destruct (Z_lt_le_dec n 0) as [Hneg | Hpos]; [| apply Atoi_fmt_d; unfold maxInt64; lia].
  unfold fmt_d.
  assert (Hu : wrap_uint64 n = n + 2 ^ 64).
  { unfold wrap_uint64. symmetry. apply Z.mod_unique with (q := -1); lia. }
  rewrite Hu.
  assert (Hi : wrap_int64 (n + 2 ^ 64) = n).
  { unfold wrap_int64. symmetry.
    enough (n + 2 ^ 63 = (n + 2 ^ 64 + 2 ^ 63) mod 2 ^ 64) by lia.
    apply Z.mod_unique with (q := 1); lia. }
  rewrite Hi. destruct (Z.ltb_spec n 0) as [_ | ?]; [| lia].
  assert (Hm : wrap_uint64 (- (n + 2 ^ 64)) = - n).
  { unfold wrap_uint64. symmetry. apply Z.mod_unique with (q := -1); lia. }
  rewrite Hm.
  destruct (fmtInteger_loop_spec 20 (- n) "") as (Hall & Hval & Hne); [simpl; lia | lia |].
  change (all_digits "") with true in Hall.
  change (decimal_value "" (- n)) with (- n) in Hval.
  rewrite (Atoi_minus_digits _ Hall Hne) by (rewrite Hval; lia).
  rewrite Hval. f_equal. lia.
Qed.

(** ** The rate flag: units alone, bursts out of range *)

(** The success case of [RateFlag.Set], from its parts. *)
Lemma RateFlag_Set_ok f b a n i :
  strconv_Atoi b = (n, None) ->
  a <> "" ->
  time_ParseDuration (if first_is_digit a then a else "1" +:+ a) = (i, None) ->
  0 < i ->
  RateFlag_Set f (b +:+ String "/" a) = ({| Burst := n; Interval := i |}, None).
Proof.
  intros Hatoi Ha Hdur Hpos.
  destruct (Atoi_ok_shape b n Hatoi) as [Hslash Hb].
  unfold RateFlag_Set. rewrite (Cut_byte_found "/" b a Hslash). simpl negb.
  rewrite (bool_decide_eq_false_2 _ Hb), (bool_decide_eq_false_2 _ Ha). simpl orb. cbv iota.
  rewrite Hatoi.
  destruct (first_is_digit a); simpl negb; cbv iota; rewrite Hdur;
    (destruct (Z.leb_spec i 0) as [? | _]; [lia | reflexivity]).
Qed.

(** Each unit of [time.ParseDuration], with ["1"] in front, denotes one
    such unit. *)
Lemma unit_with_one u unit :
  unitMap !! u = Some unit ->
  u <> "" /\ first_is_digit u = false
  /\ time_ParseDuration ("1" +:+ u) = (unit, None) /\ 0 < unit.
Proof.
  intros Hu. unfold unitMap in Hu. apply elem_of_list_to_map_2 in Hu.
  unfold unitList in Hu.
  repeat (apply elem_of_cons in Hu as [Hu | Hu];
          [inversion Hu; subst; repeat split; try discriminate; vm_compute; reflexivity |]).
  now apply elem_of_nil in Hu.
Qed.

(** X4.  With a burst that [strconv.Atoi] accepts, an interval that is the
    name of a unit alone ([ns], [us], the two spellings of the micro sign
    followed by [s], [ms], [s], [m], [h]) is parsed as one such unit. *)
Theorem RateFlag_Set_unit_alone (f : RateFlag) (b u : string) (n unit : Z) :
  strconv_Atoi b = (n, None) ->
  unitMap !! u = Some unit ->
  RateFlag_Set f (b +:+ "/" +:+ u) = ({| Burst := n; Interval := unit |}, None).
Proof.
  intros Hatoi Hu. destruct (unit_with_one u unit Hu) as (Hne & Hdigit & Hdur & Hpos).
  apply RateFlag_Set_ok; auto. now rewrite Hdigit.
Qed.

Lemma RateFlag_Set_unit_alone_witness :
  RateFlag_Set {| Burst := 0; Interval := 0 |} ("+3" +:+ "/" +:+ micro_sign +:+ "s")
  = ({| Burst := 3; Interval := Microsecond |}, None).
Proof.
  apply (RateFlag_Set_unit_alone _ "+3" (micro_sign +:+ "s") 3 Microsecond).
  - vm_compute. reflexivity.
  - vm_compute. reflexivity.
Defined.

(** X5.  A burst written with digits only that denotes a number above the
    largest [int] is rejected with the range error of [strconv.Atoi],
    whatever the interval is; nothing is stored, no wrapped value either. *)
Theorem RateFlag_Set_burst_out_of_range (f : RateFlag) (b after : string) :
  all_digits b = true ->
  maxInt64 < decimal_value b 0 ->
  after <> "" ->
  RateFlag_Set f (b +:+ "/" +:+ after) = (f, Some (InvalidBurst b ErrRange)).
Proof.
  intros Hb Hbig Hafter.
  assert (Hne : b <> "") by (intros ->; simpl in Hbig; unfold maxInt64 in Hbig; lia).
  unfold RateFlag_Set. change (b +:+ "/" +:+ after) with (b +:+ String "/" after).
  rewrite (Cut_byte_found "/" b after) by (now apply all_digits_no_byte).
  simpl negb. rewrite (bool_decide_eq_false_2 _ Hne), (bool_decide_eq_false_2 _ Hafter).
  simpl orb. cbv iota. rewrite (Atoi_digits_spec b Hb Hne).
  destruct (Z.leb_spec (decimal_value b 0) maxInt64) as [? | _]; [lia | reflexivity].
Qed.

Lemma RateFlag_Set_burst_out_of_range_witness :
  RateFlag_Set {| Burst := 1; Interval := 2 |} ("9223372036854775808" +:+ "/" +:+ "s")
  = ({| Burst := 1; Interval := 2 |}, Some (InvalidBurst "9223372036854775808" ErrRange)).
Proof.
  apply (RateFlag_Set_burst_out_of_range _ "9223372036854775808" "s").
  - reflexivity.
  - vm_compute. reflexivity.
  - discriminate.
Defined.

(** ** time.Duration.String and time.ParseDuration on whole seconds *)

Lemma decimal_value_app a : forall b n,
  decimal_value (a +:+ b) n = decimal_value b (decimal_value a n).
Proof.
  induction a as [| c a IH]; intros b n; [reflexivity |].
  rewrite append_cons. simpl. apply IH.
Qed.

Lemma all_digits_app a b : all_digits (a +:+ b) = all_digits a && all_digits b.
Proof.
  induction a as [| c a IH]; [reflexivity |].
  rewrite append_cons. simpl. now rewrite IH, andb_assoc.
Qed.

(** [fmtInt] writes the digits of [v] in front of the buffer. *)
Lemma fmtInt_loop_spec fuel : forall v buf,
  0 <= v < 10 ^ Z.of_nat fuel ->
  exists ds, fmtInt_loop fuel v buf = ds +:+ buf
             /\ all_digits ds = true /\ decimal_value ds 0 = v
             /\ (0 < v -> ds <> "").
Proof.
  induction fuel as [| k IH]; intros v buf Hv.
  - exists "". simpl in *. repeat split; lia.
  - simpl fmtInt_loop. destruct (Z.gtb_spec v 0) as [Hpos | Hzero].
    + assert (Hdiv : 0 <= v / 10 < 10 ^ Z.of_nat k).
      { rewrite Nat2Z.inj_succ, Z.pow_succ_r in Hv by lia.
        split; [apply Z.div_pos; lia | apply Z.div_lt_upper_bound; lia]. }
      destruct (IH (v / 10) (String (digit_char (v mod 10)) buf) Hdiv)
        as (ds & -> & Hall & Hval & _).
      pose proof (Z.mod_pos_bound v 10 ltac:(lia)) as Hmod.
      destruct (digit_char_spec (v mod 10) ltac:(lia)) as [Hdig Hbyte].
      exists (ds +:+ String (digit_char (v mod 10)) "").
      repeat split.
      * now rewrite append_assoc.
      * rewrite all_digits_app, Hall. simpl. now rewrite Hdig.
      * rewrite decimal_value_app, Hval. simpl. rewrite Hbyte.
        pose proof (Z.div_mod v 10 ltac:(lia)). lia.
      * intros _. destruct ds; discriminate.
    + exists "". simpl. repeat split; lia.
Qed.

Lemma fmtInt_spec v buf :
  0 <= v < 10 ^ 20 ->
  exists ds, fmtInt buf v = ds +:+ buf
             /\ all_digits ds = true /\ decimal_value ds 0 = v /\ ds <> "".
Proof.
  intros Hv. unfold fmtInt. destruct (Z.eqb_spec v 0) as [-> | Hne].
  - exists "0". repeat split. discriminate.
  - destruct (fmtInt_loop_spec 20 v buf Hv) as (ds & Heq & Hall & Hval & Hds).
    exists ds. repeat split; auto. apply Hds. lia.
Qed.

(** [fmtFrac] prints nothing for a whole number of units. *)
Lemma fmtFrac_loop_whole prec : forall k buf,
  fmtFrac_loop prec (k * 10 ^ Z.of_nat prec) false buf = (buf, k, false).
Proof.
  induction prec as [| p IH]; intros k buf.
  - simpl. now rewrite Z.mul_1_r.
  - rewrite Nat2Z.inj_succ, Z.pow_succ_r by lia. simpl fmtFrac_loop.
    replace (k * (10 * 10 ^ Z.of_nat p)) with (k * 10 ^ Z.of_nat p * 10) by lia.
    rewrite Z.mod_mul, Z.div_mul by lia. simpl. apply IH.
Qed.

(** [leadingInt] on digits followed by something else. *)
Lemma leadingInt_loop_digits ds : forall rest x,
  all_digits ds = true -> first_is_digit rest = false ->
  0 <= x -> decimal_value ds x <= 2 ^ 63 / 10 ->
  leadingInt_loop (ds +:+ rest) x = Some (decimal_value ds x, rest).
Proof.
  induction ds as [| c ds IH]; intros rest x Hds Hrest Hx Hmax.
  - change ("" +:+ rest) with rest. destruct rest as [| c r]; [reflexivity |].
    simpl in *. unfold is_digit in Hrest.
    destruct (Z.leb_spec 48 (byte_of c)), (Z.leb_spec (byte_of c) 57); try discriminate;
      destruct (Z.ltb_spec (byte_of c) 48), (Z.gtb_spec (byte_of c) 57);
      try reflexivity; lia.
  - rewrite append_cons. simpl in Hds. apply andb_true_iff in Hds as [Hc Hds].
    apply is_digit_spec in Hc. simpl decimal_value in *.
    pose proof (decimal_value_ge ds (x * 10 + (byte_of c - 48)) Hds ltac:(lia)) as Hge.
    change (2 ^ 63 / 10) with 922337203685477580 in *.
    simpl leadingInt_loop.
    destruct (Z.ltb_spec (byte_of c) 48) as [? | _]; [lia |].
    destruct (Z.gtb_spec (byte_of c) 57) as [? | _]; [lia |].
    simpl orb. cbv iota.
    change (2 ^ 63 / 10) with 922337203685477580.
    destruct (Z.gtb_spec x 922337203685477580) as [? | _]; [lia |].
    replace (x * 10 + byte_of c - 48) with (x * 10 + (byte_of c - 48)) by lia.
    rewrite wrap_uint64_small by lia.
    destruct (Z.gtb_spec (x * 10 + (byte_of c - 48)) (2 ^ 63)) as [? | _]; [lia |].
    apply IH; auto; lia.
Qed.

(** A unit [h], [m] or [s] after a whole number adds that many units. *)
Lemma ParseDuration_unit_component orig v scale uc unit rest d :
  (uc, unit) ∈ [("h"%char, Hour); ("m"%char, Minute); ("s"%char, Second)] ->
  rest = "" \/ first_is_digit rest = true ->
  0 <= v -> 0 <= d -> d + v * unit <= maxInt64 ->
  ParseDuration_unit orig v 0 scale (String uc rest) d = inl (d + v * unit, rest).
Proof.
  intros Huc Hrest Hv Hd Hmax.
  assert (Hlen : unit_len rest = 0%nat).
  { destruct Hrest as [-> | Hrest]; [reflexivity |].
    destruct rest as [| c r]; [reflexivity |]. simpl in *. now rewrite Hrest, orb_true_r. }
  assert (Hunit : unitMap !! String uc "" = Some unit /\ unit_len (String uc rest) = 1%nat
                  /\ 10 ^ 9 <= unit).
  { repeat (apply elem_of_cons in Huc as [Huc | Huc];
            [inversion Huc; subst; simpl; rewrite Hlen;
             repeat split; vm_compute; congruence |]).
    now apply elem_of_nil in Huc. }
  destruct Hunit as (Hmap & Hone & Hbig).
  unfold ParseDuration_unit. rewrite Hone. simpl Nat.eqb. cbv iota.
  simpl str_take. simpl str_drop. rewrite Hmap.
  unfold maxInt64 in Hmax.
  assert (v <= 2 ^ 63 / unit) by (apply Z.div_le_lower_bound; nia).
  destruct (Z.gtb_spec v (2 ^ 63 / unit)) as [? | _]; [lia |].
  change (0 >? 0) with false. simpl andb. cbv iota.
  rewrite (wrap_uint64_small (v * unit)) by nia.
  rewrite wrap_uint64_small by nia.
  destruct (Z.gtb_spec (d + v * unit) (2 ^ 63)) as [? | _]; [lia | reflexivity].
Qed.

(** A turn of the loop on a whole number followed by [h], [m] or [s]. *)
Lemma ParseDuration_step_component orig ds uc unit rest d :
  all_digits ds = true -> ds <> "" ->
  (uc, unit) ∈ [("h"%char, Hour); ("m"%char, Minute); ("s"%char, Second)] ->
  rest = "" \/ first_is_digit rest = true ->
  0 <= d -> d + decimal_value ds 0 * unit <= maxInt64 ->
  ParseDuration_step orig (ds +:+ String uc rest) d
  = inl (d + decimal_value ds 0 * unit, rest).
Proof.
  intros Hds Hne Huc Hrest Hd Hmax.
  pose proof (decimal_value_ge ds 0 Hds ltac:(lia)) as Hge.
  pose proof (ParseDuration_unit_component orig (decimal_value ds 0) (float64_of_uint64 1)
                uc unit rest d Huc Hrest Hge Hd Hmax) as Hunit.
  assert (Hcases : (uc = "h"%char /\ unit = Hour) \/ (uc = "m"%char /\ unit = Minute)
                   \/ (uc = "s"%char /\ unit = Second)).
  { repeat (apply elem_of_cons in Huc as [Huc | Huc]; [inversion Huc; subst; tauto |]).
    now apply elem_of_nil in Huc. }
  assert (Hbig : 10 ^ 9 <= unit)
    by (destruct Hcases as [[_ ->] | [[_ ->] | [_ ->]]]; vm_compute; congruence).
  assert (Hint : leadingInt (ds +:+ String uc rest) = Some (decimal_value ds 0, String uc rest)).
  { apply leadingInt_loop_digits; auto; [| lia |].
    - destruct Hcases as [[-> _] | [[-> _] | [-> _]]]; reflexivity.
    - change (2 ^ 63 / 10) with 922337203685477580. unfold maxInt64 in Hmax. nia. }
  destruct ds as [| c ds']; [congruence |].
  unfold ParseDuration_step. rewrite append_cons. rewrite append_cons in Hint.
  assert (Hc : is_digit c = true) by (simpl in Hds; now apply andb_true_iff in Hds as [? _]).
  rewrite Hc, orb_true_r. cbn [negb]. rewrite Hint.
  assert (Hpre : (len (String c (ds' +:+ String uc rest)) =? len (String uc rest)) = false).
  { apply Z.eqb_neq. unfold len. simpl String.length. rewrite length_append.
    simpl String.length. lia. }
  rewrite Hpre.
  destruct Hcases as [[-> _] | [[-> _] | [-> _]]]; cbv iota beta; cbn [negb andb];
    exact Hunit.
Qed.

(** The number of turns left does not matter once it covers the input. *)
Lemma ParseDuration_loop_fuel orig n : forall m s d,
  (String.length s <= n)%nat -> (String.length s <= m)%nat ->
  ParseDuration_loop n orig s d = ParseDuration_loop m orig s d.
Proof.
  induction n as [| n IH]; intros m s d Hn Hm.
  - destruct s; [now destruct m | simpl in Hn; lia].
  - destruct s as [| c r]; [now destruct m |].
    destruct m as [| m]; [simpl in Hm; lia |].
    rewrite !ParseDuration_loop_turn.
    destruct (ParseDuration_step orig (String c r) d) as [[d' s'] | e] eqn:Hstep;
      [| reflexivity].
    apply ParseDuration_step_shorter in Hstep. apply IH; lia.
Qed.

(** The loop after a turn that succeeds, with the fuel [time.ParseDuration]
    gives it. *)
Lemma ParseDuration_loop_next orig s d d' s' :
  ParseDuration_step orig s d = inl (d', s') ->
  ParseDuration_loop (String.length s) orig s d
  = ParseDuration_loop (String.length s') orig s' d'.
Proof.
  intros Hstep. pose proof (ParseDuration_step_shorter _ _ _ _ _ Hstep) as Hshort.
  destruct s as [| c r]; [simpl in Hshort; lia |].
  simpl String.length. rewrite ParseDuration_loop_turn, Hstep.
  apply ParseDuration_loop_fuel; simpl in Hshort; lia.
Qed.

(** ** The rate flag: from text and back *)

(** [time.ParseDuration] on a text that starts with a digit and is not
    ["0"], from the result of its loop. *)
Lemma ParseDuration_unsigned orig d :
  first_is_digit orig = true -> orig <> "0" ->
  ParseDuration_loop (String.length orig) orig orig 0 = Some (inl d) ->
  0 <= d <= maxInt64 ->
  time_ParseDuration orig = (d, None).
Proof.
  intros Hdigit Hzero Hloop Hd. unfold time_ParseDuration.
  destruct orig as [| c r]; [discriminate |]. simpl in Hdigit.
  assert (Hminus : Ascii.eqb c "-" = false).
  { apply Ascii.eqb_neq. intros ->. discriminate. }
  assert (Hplus : Ascii.eqb c "+" = false).
  { apply Ascii.eqb_neq. intros ->. discriminate. }
  replace (match c with "-"%char => true | _ => false end) with false
    by (destruct c as [[] [] [] [] [] [] [] []]; try reflexivity; discriminate).
  rewrite Hminus, Hplus. cbn [orb]. cbv iota.
  rewrite (decide_False (P := String c r = "0")) by exact Hzero.
  rewrite (decide_False (P := String c r = "")) by discriminate.
  rewrite Hloop. unfold maxInt64 in Hd.
  destruct (Z.gtb_spec d (2 ^ 63 - 1)) as [? | _]; [lia |].
  now rewrite wrap_int64_small by (unfold in_int64, minInt64, maxInt64; lia).
Qed.

(** The loop on [{S}s], [{M}m{S}s] and [{H}h{M}m{S}s], the three shapes
    [time.Duration.String] gives a whole number of seconds. *)
Lemma ParseDuration_loop_s orig S d :
  all_digits S = true -> S <> "" -> 0 <= d ->
  d + decimal_value S 0 * Second <= maxInt64 ->
  ParseDuration_loop (String.length (S +:+ "s")) orig (S +:+ "s") d
  = Some (inl (d + decimal_value S 0 * Second)).
Proof.
  intros HS HSne Hd Hmax.
  rewrite (ParseDuration_loop_next orig (S +:+ "s") d (d + decimal_value S 0 * Second) "");
    [reflexivity |].
  apply (ParseDuration_step_component orig S "s" Second ""); auto. set_solver.
Qed.

Lemma str_mem_app_r c a b : str_mem c b = true -> str_mem c (a +:+ b) = true.
Proof. intros Hb. now rewrite str_mem_app, Hb, orb_true_r. Qed.

Lemma str_mem_cons_r c a b : str_mem c b = true -> str_mem c (String a b) = true.
Proof. intros Hb. simpl. now rewrite Hb, orb_true_r. Qed.

Lemma first_is_digit_app S rest :
  all_digits S = true -> S <> "" -> first_is_digit (S +:+ rest) = true.
Proof.
  destruct S as [| c S]; [congruence |]. simpl. intros HS _.
  now apply andb_true_iff in HS as [? _].
Qed.

Lemma ParseDuration_loop_ms orig M S d :
  all_digits M = true -> M <> "" -> all_digits S = true -> S <> "" -> 0 <= d ->
  d + decimal_value M 0 * Minute + decimal_value S 0 * Second <= maxInt64 ->
  ParseDuration_loop (String.length (M +:+ "m" +:+ S +:+ "s")) orig (M +:+ "m" +:+ S +:+ "s") d
  = Some (inl (d + decimal_value M 0 * Minute + decimal_value S 0 * Second)).
Proof.
  intros HM HMne HS HSne Hd Hmax.
  pose proof (decimal_value_ge M 0 HM ltac:(lia)) as HgeM.
  pose proof (decimal_value_ge S 0 HS ltac:(lia)) as HgeS.
  assert (0 < Minute /\ 0 < Second) as [? ?] by (split; reflexivity).
  rewrite (ParseDuration_loop_next orig _ d (d + decimal_value M 0 * Minute) (S +:+ "s")).
  - apply ParseDuration_loop_s; auto; nia.
  - apply (ParseDuration_step_component orig M "m" Minute (S +:+ "s")); auto.
    + set_solver.
    + right. now apply first_is_digit_app.
    + nia.
Qed.

Lemma ParseDuration_loop_hms orig H M S d :
  all_digits H = true -> H <> "" -> all_digits M = true -> M <> "" ->
  all_digits S = true -> S <> "" -> 0 <= d ->
  d + decimal_value H 0 * Hour + decimal_value M 0 * Minute + decimal_value S 0 * Second
  <= maxInt64 ->
  ParseDuration_loop (String.length (H +:+ "h" +:+ M +:+ "m" +:+ S +:+ "s")) orig
    (H +:+ "h" +:+ M +:+ "m" +:+ S +:+ "s") d
  = Some (inl (d + decimal_value H 0 * Hour + decimal_value M 0 * Minute
               + decimal_value S 0 * Second)).
Proof.
  intros HH HHne HM HMne HS HSne Hd Hmax.
  pose proof (decimal_value_ge H 0 HH ltac:(lia)) as HgeH.
  pose proof (decimal_value_ge M 0 HM ltac:(lia)) as HgeM.
  pose proof (decimal_value_ge S 0 HS ltac:(lia)) as HgeS.
  assert (0 < Hour /\ 0 < Minute /\ 0 < Second) as (? & ? & ?) by (repeat split; reflexivity).
  rewrite (ParseDuration_loop_next orig _ d (d + decimal_value H 0 * Hour)
             (M +:+ "m" +:+ S +:+ "s")).
  - apply ParseDuration_loop_ms; auto; nia.
  - apply (ParseDuration_step_component orig H "h" Hour (M +:+ "m" +:+ S +:+ "s")); auto.
    + set_solver.
    + right. now apply first_is_digit_app.
    + nia.
Qed.

(** [time.ParseDuration] reads back what [time.Duration.String] prints for
    a positive whole number of seconds, and the text starts with a digit. *)
Lemma ParseDuration_String_seconds k :
  0 < k -> k * Second <= maxInt64 ->
  first_is_digit (Duration_String (k * Second)) = true
  /\ Duration_String (k * Second) <> ""
  /\ time_ParseDuration (Duration_String (k * Second)) = (k * Second, None).
Proof.
  intros Hk Hmax. unfold maxInt64 in Hmax.
  assert (Hsec : Second = 1000000000) by reflexivity.
  unfold Duration_String.
  rewrite (wrap_uint64_small (k * Second)) by lia.
  destruct (Z.ltb_spec (k * Second) 0) as [? | _]; [lia |].
  destruct (Z.ltb_spec (k * Second) Second) as [? | _]; [lia |].
  unfold fmtFrac.
  replace (fmtFrac_loop 9 (k * Second) false "s") with ("s", k, false)
    by (symmetry; apply (fmtFrac_loop_whole 9 k "s")).
  pose proof (Z.mod_pos_bound k 60 ltac:(lia)) as Hs.
  pose proof (Z.div_mod k 60 ltac:(lia)) as Hks.
  destruct (fmtInt_spec (k mod 60) "s" ltac:(lia)) as (S & -> & HS & HSval & HSne).
  assert (Hshape : forall text d,
            first_is_digit text = true -> str_mem "s" text = true ->
            ParseDuration_loop (String.length text) text text 0 = Some (inl d) ->
            d = k * Second ->
            first_is_digit text = true /\ text <> ""
            /\ time_ParseDuration text = (k * Second, None)).
  { intros text d Hdigit Hs' Hloop ->. split; [exact Hdigit |].
    split; [intros ->; discriminate |].
    apply ParseDuration_unsigned; auto; [intros ->; discriminate |].
    unfold maxInt64. lia. }
  destruct (Z.gtb_spec (k / 60) 0) as [Hm | Hm].
  - pose proof (Z.mod_pos_bound (k / 60) 60 ltac:(lia)) as Hmm.
    pose proof (Z.div_mod (k / 60) 60 ltac:(lia)) as Hkm.
    destruct (fmtInt_spec ((k / 60) mod 60) (String "m" (S +:+ "s")) ltac:(lia))
      as (M & -> & HM & HMval & HMne).
    destruct (Z.gtb_spec (k / 60 / 60) 0) as [Hh | Hh].
    + destruct (fmtInt_spec (k / 60 / 60) (String "h" (M +:+ String "m" (S +:+ "s"))))
        as (H & -> & HH & HHval & HHne); [lia |].
      eapply Hshape.
      * now apply first_is_digit_app.
      * apply str_mem_app_r, str_mem_cons_r, str_mem_app_r, str_mem_cons_r, str_mem_app_r.
        reflexivity.
      * apply (ParseDuration_loop_hms _ H M S 0); auto; [lia |].
        rewrite HHval, HMval, HSval. unfold maxInt64, Hour, Minute. lia.
      * rewrite HHval, HMval, HSval. unfold Hour, Minute. lia.
    + eapply Hshape.
      * now apply first_is_digit_app.
      * apply str_mem_app_r, str_mem_cons_r, str_mem_app_r. reflexivity.
      * apply (ParseDuration_loop_ms _ M S 0); auto; [lia |].
        rewrite HMval, HSval. unfold maxInt64, Minute. lia.
      * rewrite HMval, HSval. unfold Minute. lia.
  - assert (k / 60 = 0) by (pose proof (Z.div_pos k 60); lia).
    eapply Hshape.
    + now apply first_is_digit_app.
    + apply str_mem_app_r. reflexivity.
    + apply (ParseDuration_loop_s _ S 0); auto; [lia |].
      rewrite HSval. unfold maxInt64. lia.
    + rewrite HSval. lia.
Qed.

(** X6.  [RateFlag.Set] reads back what [RateFlag.String] prints: for a
    rate whose interval is a positive whole number of seconds, with any
    burst, negative or not, the text [String] gives is accepted by [Set] and
    stores the same rate. *)
Theorem RateFlag_String_Set_roundtrip (f0 f : RateFlag) (k : Z) :
  in_int64 (Burst f) ->
  Interval f = k * Second ->
  0 < k ->
  k * Second <= maxInt64 ->
  RateFlag_Set f0 (RateFlag_String f) = (f, None).
Proof.
  intros Hburst Hinterval Hk Hmax. destruct f as [burst interval]. simpl in *. subst interval.
  destruct (ParseDuration_String_seconds k Hk Hmax) as (Hdigit & Hne & Hdur).
  unfold RateFlag_String. simpl Burst. simpl Interval.
  apply RateFlag_Set_ok.
  - now apply Atoi_fmt_d_int.
  - exact Hne.
  - now rewrite Hdigit.
  - assert (0 < Second) by reflexivity. nia.
Qed.

Lemma RateFlag_String_Set_roundtrip_witness :
  RateFlag_String {| Burst := -200; Interval := 3725 * Second |} = "-200/1h2m5s"
  /\ RateFlag_Set {| Burst := 0; Interval := 0 |}
       (RateFlag_String {| Burst := -200; Interval := 3725 * Second |})
     = ({| Burst := -200; Interval := 3725 * Second |}, None).
Proof.
  split; [vm_compute; reflexivity |].
  apply (RateFlag_String_Set_roundtrip _ {| Burst := -200; Interval := 3725 * Second |} 3725).
  - unfold in_int64, minInt64, maxInt64. simpl. lia.
  - reflexivity.
  - lia.
  - vm_compute. discriminate.
Defined.

(** ** The flags: further properties *)

(** X7.  The rate in its initial state, interval zero, is printed by
    [RateFlag.String] as a text that [RateFlag.Set] rejects: whatever the
    burst, ["{burst}/0s"] fails with the error for a non-positive interval. *)
Theorem RateFlag_String_zero_interval_rejected (f0 : RateFlag) (burst : Z) :
  in_int64 burst ->
  RateFlag_String {| Burst := burst; Interval := 0 |} = fmt_d burst +:+ "/0s"
  /\ RateFlag_Set f0 (RateFlag_String {| Burst := burst; Interval := 0 |})
     = (f0, Some (NonPositiveInterval "0s")).
Proof.
  intros Hburst. split; [reflexivity |].
  destruct (Atoi_ok_shape _ _ (Atoi_fmt_d_int burst Hburst)) as [Hslash Hne].
  unfold RateFlag_String, RateFlag_Set. simpl Burst. simpl Interval.
  change (fmt_d burst +:+ "/" +:+ Duration_String 0) with (fmt_d burst +:+ String "/" "0s").
  rewrite (Cut_byte_found "/" (fmt_d burst) "0s" Hslash). simpl negb.
  rewrite (bool_decide_eq_false_2 _ Hne). simpl orb. cbv iota.
  now rewrite (Atoi_fmt_d_int burst Hburst).
Qed.

Lemma RateFlag_String_zero_interval_rejected_witness :
  RateFlag_String {| Burst := 0; Interval := 0 |} = "0/0s"
  /\ RateFlag_Set {| Burst := 0; Interval := 0 |}
       (RateFlag_String {| Burst := 0; Interval := 0 |})
     = ({| Burst := 0; Interval := 0 |}, Some (NonPositiveInterval "0s")).
Proof.
  assert (Hzero : in_int64 0) by (unfold in_int64, minInt64, maxInt64; lia).
  split; [reflexivity |].
  apply (RateFlag_String_zero_interval_rejected {| Burst := 0; Interval := 0 |} 0 Hzero).
Defined.

Section MoreFlags.
Context `{NetURL}.

(** X8.  [init] registers each of its fifteen names once, the six rewrite
    names being [rewrite-] + the field with its dots turned into hyphens +
    [s]; [flag.Set] finds a value exactly under the name it was registered
    with, and for any other name it returns the no-such-flag error and
    leaves the configuration alone. *)
Theorem registered_flags (c : Config) (name value : string) (fv : FlagValue) :
  NoDup (map fst registrations)
  /\ map rewrite_flag_name rewriteNames
     = ["rewrite-service-names"; "rewrite-service-node-names";
        "rewrite-service-target-names"; "rewrite-span-names";
        "rewrite-transaction-names"; "rewrite-transaction-types"]
  /\ (formal !! name = Some fv <-> name = flag_name fv)
  /\ (formal !! name = None ->
      flag_Set c name value = (c, Some (ErrNoSuchFlag name))).
Proof.
  split; [| split; [reflexivity | split]].
  - apply (bool_decide_unpack (NoDup (map fst registrations))). vm_compute. exact I.
  - split; [apply formal_inv | intros ->; apply formal_flag_name].
  - intros Hnone. unfold flag_Set. now rewrite Hnone.
Qed.

(** The toggles and the other fields after [set_rewrite]. *)
Lemma get_set_rewrite (r r' : RewriteField) (b : bool) (c : Config) :
  get_rewrite r' (set_rewrite r b c) = if decide (r' = r) then b else get_rewrite r' c.
Proof. destruct r, r'; reflexivity. Qed.

(** X9.  The six rewrite toggles correspond one to one to their flags: a
    boolean given to the flag of one field becomes the toggle of that field
    and changes no other toggle. *)
Theorem rewrite_flag_sets_its_toggle (c : Config) (r r' : RewriteField) (value : string)
    (b : bool) :
  strconv_ParseBool value = (b, None) ->
  snd (flag_Set c (rewrite_flag_name r) value) = None
  /\ get_rewrite r' (fst (flag_Set c (rewrite_flag_name r) value))
     = if decide (r' = r) then b else get_rewrite r' c.
Proof.
  intros Hbool. unfold flag_Set.
  pose proof (formal_flag_name (rewrite_var r)) as Hformal. simpl flag_name in Hformal.
  rewrite Hformal. simpl. unfold set_bool, boolValue_Set. rewrite Hbool. simpl.
  split; [reflexivity | apply get_set_rewrite].
Qed.

(** What [flag.Set] does to the header mapping. *)
Lemma flag_Set_Headers (c : Config) (name value : string) :
  Headers (fst (flag_Set c name value))
  = if bool_decide (name = "header" /\ snd (strings_Cut value "=") = true)
    then Some (<[fst (fst (strings_Cut value "=")) := snd (fst (strings_Cut value "="))]>
                 (headers_of c))
    else Headers c.
Proof.
  unfold flag_Set. destruct (formal !! name) as [fv |] eqn:Hfv.
  - apply formal_inv in Hfv as ->.
    destruct fv as [| | | | | | | | | r]; simpl flag_name; simpl Value_Set;
      try (rewrite bool_decide_eq_false_2 by (intros [? _]; discriminate)).
    + unfold server_Set. case_bool_decide; [destruct (url_Parse value) |]; reflexivity.
    + reflexivity.
    + reflexivity.
    + unfold set_bool. now destruct (boolValue_Set value).
    + unfold set_bool. now destruct (boolValue_Set value).
    + unfold set_bool. now destruct (boolValue_Set value).
    + destruct (Cut_byte_cases "=" value) as [[Hv Hcut] | (k & v & -> & Hk & Hcut)].
      * unfold header_Set. rewrite Hcut. reflexivity.
      * rewrite (header_Set_found c k v Hk : header_Set c (k +:+ String "=" v) = _).
        rewrite Hcut. reflexivity.
    + now destruct (RateFlag_Set (EventRate c) value).
    + unfold set_bool. now destruct (boolValue_Set value).
    + unfold set_bool. destruct (boolValue_Set value). now destruct r.
  - simpl. rewrite bool_decide_eq_false_2; [reflexivity |].
    intros [-> _]. vm_compute in Hfv. discriminate.
Qed.
End MoreFlags.

(** ** Headers, environment and command line *)

Section Layers.
Context `{NetURL}.

(** X10.  Header flags with different keys can be given in either order:
    both succeed and the mapping is the same. *)
Theorem header_flags_commute (c : Config) (k1 v1 k2 v2 : string) :
  str_mem "=" k1 = false ->
  str_mem "=" k2 = false ->
  k1 <> k2 ->
  let a := flag_Set (fst (flag_Set c "header" (k1 +:+ "=" +:+ v1))) "header" (k2 +:+ "=" +:+ v2) in
  let b := flag_Set (fst (flag_Set c "header" (k2 +:+ "=" +:+ v2))) "header" (k1 +:+ "=" +:+ v1) in
  snd a = None /\ snd b = None
  /\ headers_of (fst a) = headers_of (fst b)
  /\ headers_of (fst a) !! k1 = Some v1 /\ headers_of (fst a) !! k2 = Some v2.
Proof.
  intros Hk1 Hk2 Hne a b. subst a b.
  rewrite !flag_Set_header.
  rewrite (header_Set_found c k1 v1 Hk1), (header_Set_found c k2 v2 Hk2). simpl.
  rewrite (header_Set_found _ k2 v2 Hk2), (header_Set_found _ k1 v1 Hk1). simpl.
  rewrite !headers_of_set_Headers.
  repeat split.
  - now apply insert_insert_ne.
  - rewrite lookup_insert_ne by congruence. apply lookup_insert_eq.
  - apply lookup_insert_eq.
Qed.

(** A turn of the loop of [setFlagsFromEnv] leaves the fields that have no
    environment variable as they are. *)
Lemma setFlagFromEnv_plain (env : gmap string string) (c : Config) (k : string) :
  plain_fields (setFlagFromEnv env c k) = plain_fields c.
Proof.
  destruct (setFlagFromEnv_cases env k) as [Hk | [-> | [-> | [-> | ->]]]];
    rewrite ?Hk, ?setFlagFromEnv_server, ?setFlagFromEnv_secret_token,
      ?setFlagFromEnv_api_key, ?setFlagFromEnv_secure; reflexivity.
Qed.

Lemma setFlagsFromEnv_plain (env : gmap string string) (order : list string) :
  forall c : Config, plain_fields (setFlagsFromEnv order env c) = plain_fields c.
Proof.
  unfold setFlagsFromEnv. induction order as [| k rest IH]; intros c; [reflexivity |].
  simpl. now rewrite IH, setFlagFromEnv_plain.
Qed.

(** A header flag that succeeds had its ['=']. *)
Lemma flag_Set_header_ok (c : Config) (value : string) :
  snd (flag_Set c "header" value) = None -> snd (strings_Cut value "=") = true.
Proof.
  rewrite flag_Set_header. unfold header_Set.
  destruct (strings_Cut value "=") as [[k x] []]; simpl; [reflexivity | discriminate].
Qed.

(** [flag.Parse] and the header mapping. *)
Lemma flag_Parse_headers (args : list (string * string)) : forall c c' : Config,
  flag_Parse c args = (c', None) ->
  (header_entries args = [] -> Headers c' = Headers c)
  /\ (header_entries args <> [] ->
      Headers c' = Some (foldl (fun m kv => <[kv.1 := kv.2]> m) (headers_of c)
                           (header_entries args))).
Proof.
  induction args as [| [n v] rest IH]; intros c c' Hparse.
  - simpl in Hparse. inversion Hparse; subst. simpl. split; [reflexivity | congruence].
  - simpl in Hparse.
    pose proof (flag_Set_Headers c n v) as Hset.
    pose proof (flag_Set_header_ok c v) as Hok.
    destruct (flag_Set c n v) as [c1 [e |]] eqn:Hflag; [discriminate |].
    simpl in Hset. destruct (IH c1 c' Hparse) as [Hnil Hcons].
    simpl header_entries. destruct (decide (n = "header")) as [Hn | Hn];
      [rewrite (bool_decide_eq_true_2 _ Hn) | rewrite (bool_decide_eq_false_2 _ Hn)].
    + subst n. rewrite Hflag in Hok. specialize (Hok eq_refl).
      destruct (strings_Cut v "=") as [[k x] ok]. simpl in Hok, Hset. subst ok.
      rewrite bool_decide_eq_true_2 in Hset by auto.
      split; [discriminate |]. intros _. simpl foldl.
      destruct (header_entries rest) as [| e es] eqn:Hrest.
      * rewrite (Hnil eq_refl), Hset. reflexivity.
      * rewrite Hcons by discriminate. f_equal. unfold headers_of at 1.
        now rewrite Hset.
    + rewrite bool_decide_eq_false_2 in Hset by tauto.
      split.
      * intros Hrest. now rewrite (Hnil Hrest).
      * intros Hrest. rewrite (Hcons Hrest). unfold headers_of. now rewrite Hset.
Qed.

(** X11.  After a successful initialization the header mapping is what the
    header flags of the command line say, applied in order, and nothing
    else: with no header flag it is nil, and with one or more it holds their
    entries, a later one overwriting an earlier one with its key.  The
    environment has no part in it. *)
Theorem resolve_headers (order : list string) (env : gmap string string)
    (args : list (string * string)) (c : Config) :
  resolve order env args = (c, None) ->
  (header_entries args = [] -> Headers c = None)
  /\ (header_entries args <> [] ->
      Headers c = Some (foldl (fun m kv => <[kv.1 := kv.2]> m) ∅ (header_entries args))).
Proof.
  unfold resolve, init. intros Hparse.
  pose proof (setFlagsFromEnv_plain env order Config_zero) as Hplain.
  assert (Hnone : Headers (setFlagsFromEnv order env Config_zero) = None)
    by (unfold plain_fields in Hplain; now inversion Hplain).
  destruct (flag_Parse_headers args _ _ Hparse) as [Hnil Hcons].
  split.
  - intros Hargs. now rewrite (Hnil Hargs).
  - intros Hargs. rewrite (Hcons Hargs). unfold headers_of. now rewrite Hnone.
Qed.

(** An empty variable and a variable that is not set give the same value. *)
Lemma getEnvOrDefault_empty (env : gmap string string) (k name d : string) :
  getEnvOrDefault (<[k := ""]> env) name d = getEnvOrDefault (delete k env) name d.
Proof.
  unfold getEnvOrDefault, os_Getenv. destruct (decide (k = name)) as [-> | Hne].
  - now rewrite lookup_insert_eq, lookup_delete_eq.
  - now rewrite lookup_insert_ne, lookup_delete_ne.
Qed.

(** X12.  An environment variable set to the empty string counts as not
    set: [init] gives the same configuration as without the variable, for
    every variable and every order, and so does the whole initialization,
    whatever the command line. *)
Theorem empty_variable_is_unset (order : list string) (env : gmap string string)
    (k : string) (args : list (string * string)) :
  init order (<[k := ""]> env) = init order (delete k env)
  /\ resolve order (<[k := ""]> env) args = resolve order (delete k env) args.
Proof.
  assert (Hinit : init order (<[k := ""]> env) = init order (delete k env)).
  { unfold init, setFlagsFromEnv.
    generalize (@Config_zero H). induction order as [| k0 rest IH]; intros c; [reflexivity |].
    simpl. rewrite IH. f_equal. unfold setFlagFromEnv.
    destruct (flagEnvMap !! k0) as [[name d] |]; [| reflexivity].
    now rewrite getEnvOrDefault_empty. }
  split; [exact Hinit |]. unfold resolve. now rewrite Hinit.
Qed.

(** X13.  The order in which Go ranges over [flagEnvMap] has no effect on
    the configuration [init] gives, nor on the rest of the initialization. *)
Theorem init_any_order (order order' : list string) (env : gmap string string)
    (args : list (string * string)) :
  order ≡ₚ order' ->
  init order env = init order' env
  /\ resolve order env args = resolve order' env args.
Proof.
  intros Horder. unfold resolve, init.
  now rewrite (setFlagsFromEnv_order env _ _ Horder).
Qed.

(** [flag.Set] on two configurations that agree on the fields without an
    environment variable: the same error, and they still agree. *)
Lemma flag_Set_plain (c c' : Config) (name value : string) :
  plain_fields c = plain_fields c' ->
  snd (flag_Set c name value) = snd (flag_Set c' name value)
  /\ plain_fields (fst (flag_Set c name value)) = plain_fields (fst (flag_Set c' name value)).
Proof.
  intros Hplain. unfold flag_Set. destruct (formal !! name) as [fv |]; [| auto].
  destruct c, c'. unfold plain_fields in Hplain. simpl in Hplain.
  inversion Hplain; subst.
  destruct fv as [| | | | | | | | | r]; simpl;
    unfold server_Set, header_Set, set_bool, boolValue_Set; simpl.
  - case_bool_decide; [destruct (url_Parse value) |]; auto.
  - auto.
  - auto.
  - destruct (strconv_ParseBool value) as [v [e |]]; auto.
  - destruct (strconv_ParseBool value) as [v [e |]]; auto.
  - destruct (strconv_ParseBool value) as [v [e |]]; auto.
  - destruct (strings_Cut value "=") as [[k v] []]; auto.
  - destruct (RateFlag_Set _ value) as [f e]; auto.
  - destruct (strconv_ParseBool value) as [v [e |]]; auto.
  - destruct (strconv_ParseBool value) as [v [e |]]; destruct r; auto.
Qed.

Lemma flag_Parse_plain (args : list (string * string)) : forall c c' : Config,
  plain_fields c = plain_fields c' ->
  snd (flag_Parse c args) = snd (flag_Parse c' args)
  /\ plain_fields (fst (flag_Parse c args)) = plain_fields (fst (flag_Parse c' args)).
Proof.
  induction args as [| [n v] rest IH]; intros c c' Hplain; [simpl; auto |].
  simpl. destruct (flag_Set_plain c c' n v Hplain) as [Herr Hnext].
  destruct (flag_Set c n v) as [c1 [e |]], (flag_Set c' n v) as [c1' [e' |]];
    simpl in *; try discriminate; auto.
Qed.

(** X14.  The environment has no part in the fields without an environment
    variable, nor in the error: two runs with the same command line, in any
    two environments, end with the same error or none, the same event rate,
    the same header mapping and the same toggles. *)
Theorem plain_fields_ignore_environment (order order' : list string)
    (env env' : gmap string string) (args : list (string * string)) :
  snd (resolve order env args) = snd (resolve order' env' args)
  /\ plain_fields (fst (resolve order env args))
     = plain_fields (fst (resolve order' env' args)).
Proof.
  unfold resolve, init. apply flag_Parse_plain.
  now rewrite !setFlagsFromEnv_plain.
Qed.
End Layers.

Lemma header_flags_commute_witness :
  let c := @Config_zero TextURL in
  let a := flag_Set (fst (flag_Set c "header" "A=1")) "header" "B=x=y" in
  let b := flag_Set (fst (flag_Set c "header" "B=x=y")) "header" "A=1" in
  (str_mem "=" "A" = false /\ str_mem "=" "B" = false /\ "A" <> "B")
  /\ snd a = None /\ snd b = None
  /\ headers_of (fst a) = headers_of (fst b)
  /\ headers_of (fst a) !! "A" = Some "1" /\ headers_of (fst a) !! "B" = Some "x=y".
Proof.
  intros c a b. split; [repeat split; discriminate |].
  apply (@header_flags_commute TextURL c "A" "1" "B" "x=y"); [reflexivity .. | discriminate].
Defined.

Lemma resolve_headers_witness :
  let args := [("header", "A=1"); ("secure", "true"); ("header", "A=2")] in
  let c := fst (@resolve TextURL flagEnvKeys ∅ args) in
  @resolve TextURL flagEnvKeys ∅ args = (c, None)
  /\ header_entries args = [("A", "1"); ("A", "2")]
  /\ Headers c = Some {[ "A" := "2" ]}.
Proof.
  intros args c.
  assert (Hrun : @resolve TextURL flagEnvKeys ∅ args = (c, None)) by (vm_compute; reflexivity).
  split; [exact Hrun |]. split; [reflexivity |].
  destruct (@resolve_headers TextURL flagEnvKeys ∅ args c Hrun) as [_ Hsome].
  rewrite Hsome by discriminate. vm_compute. reflexivity.
Defined.

Lemma init_any_order_witness :
  let env : gmap string string := {[ "ELASTIC_APM_API_KEY" := "key" ]} in
  reverse flagEnvKeys ≡ₚ flagEnvKeys
  /\ @init TextURL (reverse flagEnvKeys) env = @init TextURL flagEnvKeys env
  /\ @resolve TextURL (reverse flagEnvKeys) env [("secure", "1")]
     = @resolve TextURL flagEnvKeys env [("secure", "1")].
Proof.
  intros env. split; [apply reverse_Permutation |].
  apply (@init_any_order TextURL). apply reverse_Permutation.
Defined.

(** The configuration of a run in a given environment. *)
Lemma init_value_witness :
  let env : gmap string string :=
    {[ "ELASTIC_APM_SERVER_URL" := "http://10.0.0.1:8200";
       "ELASTIC_APM_VERIFY_SERVER_CERT" := "true" ]} in
  flagEnvKeys ≡ₚ flagEnvKeys
  /\ @init TextURL flagEnvKeys env
     = @set_Secure TextURL true
         (@set_ServerURL TextURL (Some "http://10.0.0.1:8200") Config_zero).
Proof.
  intros env. split; [reflexivity |].
  rewrite (@init_value TextURL env flagEnvKeys (reflexivity _)).
  vm_compute. reflexivity.
Defined.

Lemma RateFlag_Set_NonPositive_is_zero_witness :
  snd (RateFlag_Set {| Burst := 0; Interval := 0 |} "10/0h0m")
  = Some (NonPositiveInterval "0h0m")
  /\ first_is_digit "0h0m" = true /\ time_ParseDuration "0h0m" = (0, None).
Proof.
  split; [vm_compute; reflexivity |].
  apply (RateFlag_Set_NonPositive_is_zero {| Burst := 0; Interval := 0 |} "10/0h0m").
  vm_compute. reflexivity.
Defined.

Lemma rewrite_flag_sets_its_toggle_witness :
  let c := @Config_zero TextURL in
  let r := flag_Set c "rewrite-span-names" "T" in
  strconv_ParseBool "T" = (true, None)
  /\ snd r = None
  /\ get_rewrite span_name (fst r) = true
  /\ get_rewrite service_name (fst r) = false.
Proof.
  intros c r. split; [reflexivity |].
  destruct (@rewrite_flag_sets_its_toggle TextURL c span_name span_name "T" true eq_refl)
    as [Hok Hspan].
  destruct (@rewrite_flag_sets_its_toggle TextURL c span_name service_name "T" true eq_refl)
    as [_ Hother].
  repeat split; assumption.
Defined.
